(** * NIAP product scraper: header resolution, extraction, deduplication,
      pagination and output

    A shallow embedding of [scripts/run_niap.py] (the grid scraper), of the
    label table of [cc_scraper/utils.py] and of the record type of
    [cc_scraper/niap_scraper.py], with the properties of the specification
    stated and settled against them.

    Text is a [string] holding the UTF-8 bytes of a Python [str].  The
    classification of characters follows Python on the ASCII range; a byte
    above 127 (part of a non-ASCII character) is neither white space, nor a
    digit, nor a word character, and [lower] leaves it alone.

    The browser is the external collaborator: a [Browser] gives a type of
    worlds, the queries a world answers ([dom_of]) and what each action of the
    driver does to it ([perform]). *)

From stdpp Require Import gmap strings list fin_maps pretty.
From Stdlib Require Import Ascii NArith.

(** ** Python text primitives *)

Module Py.

(** [str.isspace] on one character (ASCII range): tab, line feed, vertical
    tab, form feed, carriage return, the separators 28..31 and the space. *)
Definition isspace (a : ascii) : bool :=
  let n := nat_of_ascii a in
  ((9 <=? n) && (n <=? 13)) || ((28 <=? n) && (n <=? 32)).

Definition isdigit (a : ascii) : bool :=
  let n := nat_of_ascii a in (48 <=? n) && (n <=? 57).

Definition isupper (a : ascii) : bool :=
  let n := nat_of_ascii a in (65 <=? n) && (n <=? 90).

Definition islower (a : ascii) : bool :=
  let n := nat_of_ascii a in (97 <=? n) && (n <=? 122).

(** A word character of [re]: letter, digit or underscore. *)
Definition isword (a : ascii) : bool :=
  isupper a || islower a || isdigit a || (nat_of_ascii a =? 95).

Definition lower_char (a : ascii) : ascii :=
  if isupper a then ascii_of_nat (nat_of_ascii a + 32) else a.

(** [s.lower()] *)
Fixpoint lower (s : string) : string :=
  match s with
  | EmptyString => EmptyString
  | String a s' => String (lower_char a) (lower s')
  end.

Definition is_empty (s : string) : bool :=
  match s with EmptyString => true | String _ _ => false end.

(** [s.lstrip()], [s.rstrip()] and [s.strip()] *)
Fixpoint lstrip (s : string) : string :=
  match s with
  | EmptyString => EmptyString
  | String a s' => if isspace a then lstrip s' else s
  end.

Fixpoint rstrip (s : string) : string :=
  match s with
  | EmptyString => EmptyString
  | String a s' =>
      let r := rstrip s' in
      if is_empty r && isspace a then EmptyString else String a r
  end.

Definition strip (s : string) : string := rstrip (lstrip s).

(** [s.split()]: the maximal runs of characters that are not white space.
    [cur] is the run being read. *)
Fixpoint split_go (cur : string) (s : string) : list string :=
  match s with
  | EmptyString => if is_empty cur then [] else [cur]
  | String a s' =>
      if isspace a
      then (if is_empty cur then split_go EmptyString s'
            else cur :: split_go EmptyString s')
      else split_go (cur +:+ String a EmptyString) s'
  end.

Definition split (s : string) : list string := split_go EmptyString s.

(** [sep.join(l)] *)
Definition join (sep : string) (l : list string) : string := String.concat sep l.

(** [x in s] for strings: [x] occurs in [s]. *)
Fixpoint contains (x s : string) : bool :=
  String.prefix x s ||
  match s with
  | EmptyString => false
  | String _ s' => contains x s'
  end.

(** [int(s)] for a run of ASCII digits. *)
Definition digit_val (a : ascii) : nat := nat_of_ascii a - 48.

Fixpoint int_go (acc : nat) (s : string) : nat :=
  match s with
  | EmptyString => acc
  | String a s' => int_go (10 * acc + digit_val a) s'
  end.

Definition int (s : string) : nat := int_go 0 s.

(** [s or dflt] for an optional string: [None] and the empty string are
    both false. *)
Definition or_str (s : option string) (dflt : string) : string :=
  match s with
  | Some (String a r) => String a r
  | _ => dflt
  end.

End Py.

(** ** Header resolution ([scripts/run_niap.py]) *)

Definition REQUIRED_HEADERS : list string :=
  [ "VID"; "Vendor"; "Product"; "CCTL"; "Certification Date"; "Status";
    "Conformance Claims"; "Assurance Maintenance Date"; "Maintenance Update";
    "Scheme" ].

Definition ALIASES : gmap string string :=
  list_to_map
    [ ("vid", "VID"); ("vendor", "Vendor"); ("product", "Product");
      ("cctl", "CCTL"); ("certification date", "Certification Date");
      ("status", "Status"); ("conformance claims", "Conformance Claims");
      ("assurance maintenance date", "Assurance Maintenance Date");
      ("maintenance update", "Maintenance Update"); ("scheme", "Scheme") ].

(** [norm(s)]: the words of [s] joined by one space, then stripped. *)
Definition norm (s : string) : string :=
  Py.strip (Py.join " " (Py.split s)).

Definition to_canonical (header : string) : option string :=
  let h := Py.lower (norm header) in
  ALIASES !! h.

(** A Python value used as a condition: [None] and the empty string are
    false. *)
Definition truthy (o : option string) : bool :=
  match o with
  | Some s => negb (Py.is_empty s)
  | None => false
  end.

(** ** The page as the scraper queries it

    Each field is the answer of the page to one locator of the source.  A
    locator is lazy: it is a selector, resolved against the page at the time
    of each use. *)

(** A cell: its [inner_text()], and the [href] attribute of each anchor
    inside it ([None] when the anchor has no such attribute). *)
Record Cell := { cell_text : string; cell_links : list (option string) }.

(** A row element: its cells by role [gridcell] and its [td] children. *)
Record RowEl := { row_gridcells : list Cell; row_tds : list Cell }.

(** A grid element: the texts of its [thead tr th] and its [tbody tr]. *)
Record GridEl := { grid_ths : list string; grid_trs : list RowEl }.

(** A button: [is_enabled()] and its [class] attribute. *)
Record Button := { btn_enabled : bool; btn_class : option string }.

Record Page := {
  (** [page.locator(sel)] for the selectors of [_find_grid] *)
  locate_grid : string -> list GridEl;
  (** [page.get_by_role(columnheader)]: the inner texts *)
  columnheaders : list string;
  (** [div[role='row']] without a columnheader inside *)
  role_rows : list RowEl;
  (** [div.MuiDataGrid-virtualScroller] matches something *)
  has_scroller : bool;
  (** [page.locator(sel)] for the selectors of the pager caption: inner texts *)
  locate_text : string -> list string;
  (** [page.locator(sel)] for the selectors of the next-page button *)
  locate_button : string -> list Button
}.

(** What the driver does to the browser. *)
Inductive Action :=
| ScrollerToEnd                 (* scroller.evaluate: scrollTop = scrollHeight *)
| MouseWheel (dx dy : nat)      (* page.mouse.wheel(dx, dy) *)
| WaitTimeout (ms : nat)        (* page.wait_for_timeout(ms) *)
| Click (selector : string)     (* locator.click() on the first match *)
| SetPageSize.                  (* the clicks of _set_page_size_to_max *)

Global Instance Action_eq_dec : EqDecision Action.
Proof. solve_decision. Defined.

Record Browser := {
  world : Type;
  dom_of : world -> Page;
  perform : Action -> world -> world
}.

(** ** Grid helpers *)

(** [_find_grid]: the first selector that matches, as a locator. *)
Definition grid_selectors : list string :=
  [ "div[role='grid']"; "div.MuiDataGrid-root"; "div.MuiDataGrid-main"; "table" ].

Fixpoint first_matching {A} (locate : string -> list A) (sels : list string)
  : option string :=
  match sels with
  | [] => None
  | sel :: rest =>
      if bool_decide (0 < length (locate sel)) then Some sel
      else first_matching locate rest
  end.

Definition _find_grid (p : Page) : option string :=
  first_matching (locate_grid p) grid_selectors.

(** The element a grid locator stands for on page [p], if any. *)
Definition grid_first (p : Page) (grid : string) : option GridEl :=
  head (locate_grid p grid).

(** [_get_headers]: the header cells by role, or else the grid's [th];
    [index_to_name[i] = canon] for each header that resolves. *)
Fixpoint headers_loop (i : nat) (texts : list string) (index_to_name : gmap nat string)
  : gmap nat string :=
  match texts with
  | [] => index_to_name
  | t :: rest =>
      let txt := norm t in
      let canon := to_canonical txt in
      headers_loop (S i) rest
        (if truthy canon then
           match canon with Some c => <[i := c]> index_to_name | None => index_to_name end
         else index_to_name)
  end.

Definition header_texts (p : Page) (grid : string) : list string :=
  if bool_decide (length (columnheaders p) = 0)
  then from_option grid_ths [] (grid_first p grid)
  else columnheaders p.

Definition _get_headers (p : Page) (grid : string) : gmap nat string :=
  headers_loop 0 (header_texts p grid) ∅.

(** [_rows_locator], with the fallback of [_extract_rows] to [tbody tr]. *)
Definition data_rows (p : Page) (grid : string) : list RowEl :=
  if bool_decide (length (role_rows p) = 0)
  then from_option grid_trs [] (grid_first p grid)
  else role_rows p.

(** The cells of a row: by role, or else its [td]. *)
Definition row_cells (r : RowEl) : list Cell :=
  if bool_decide (length (row_gridcells r) = 0) then row_tds r else row_gridcells r.

(** ** The total of the pager caption *)

(** The regular expression of [_get_total_from_pager] is
    [\bof\s+(\d{1,7})\b].  White space and digits are disjoint, and a digit
    is a word character, so a match at a position exists exactly when the
    text there reads [of], then a run of one or more white-space characters
    (the whole run), then a run of one to seven digits (the whole run) that
    ends the text or is followed by a character that is not a word
    character; the group is that run of digits. *)

Fixpoint span (f : ascii -> bool) (s : string) : string * string :=
  match s with
  | EmptyString => (EmptyString, EmptyString)
  | String a s' =>
      if f a then let '(run, rest) := span f s' in (String a run, rest)
      else (EmptyString, s)
  end.

(** The match of [of\s+(\d{1,7})\b] at the head of [s]: its group. *)
Definition match_of_total (s : string) : option string :=
  match s with
  | String "o" (String "f" s1) =>
      let '(spaces, s2) := span Py.isspace s1 in
      let '(digits, s3) := span Py.isdigit s2 in
      let boundary :=
        match s3 with
        | EmptyString => true
        | String a _ => negb (Py.isword a)
        end in
      if bool_decide (1 ≤ String.length spaces)
         && bool_decide (1 ≤ String.length digits ≤ 7)
         && boundary
      then Some digits else None
  | _ => None
  end.

(** [re.search]: the left-most position with a match.  [prev_word] tells
    whether the character before the position is a word character (the
    first [\b]: the position starts a word). *)
Fixpoint search_of_total (prev_word : bool) (s : string) : option string :=
  match (if prev_word then None else match_of_total s) with
  | Some g => Some g
  | None =>
      match s with
      | EmptyString => None
      | String a s' => search_of_total (Py.isword a) s'
      end
  end.

Definition pager_selectors : list string :=
  [ "div.MuiTablePagination-displayedRows";
    "[class*='MuiTablePagination-displayedRows']";
    "[aria-live='polite']";
    "div[role='status']" ].

(** The inner loop: the first three matches of one selector. *)
Fixpoint total_in_texts (texts : list string) : option nat :=
  match texts with
  | [] => None
  | t :: rest =>
      let txt := Py.strip t in
      match search_of_total false txt with
      | Some g => Some (Py.int g)
      | None => total_in_texts rest
      end
  end.

Fixpoint total_in_selectors (p : Page) (sels : list string) : option nat :=
  match sels with
  | [] => None
  | s :: rest =>
      match total_in_texts (take (Nat.min 3 (length (locate_text p s))) (locate_text p s)) with
      | Some n => Some n
      | None => total_in_selectors p rest
      end
  end.

Definition _get_total_from_pager (p : Page) : option nat :=
  total_in_selectors p pager_selectors.

(** ** Extraction, with deduplication *)

Record Row := {
  VID : string; Vendor : string; Product : string; CCTL : string;
  Certification_Date : string; Status : string;
  Conformance_Claims : string; Assurance_Maintenance_Date : string;
  Maintenance_Update : string; Scheme : string;
  Product_URL : string
}.

(** [values.get(k, dflt)] *)
Definition dict_get (values : gmap string string) (k dflt : string) : string :=
  from_option id dflt (values !! k).

(** The loop over the cells of one row: [values] and [product_url] after the
    cells from column [c_i] on. *)
Fixpoint cells_loop (index_to_name : gmap nat string) (c_i : nat) (cells : list Cell)
    (values : gmap string string) (product_url : string)
  : gmap string string * string :=
  match cells with
  | [] => (values, product_url)
  | cell :: rest =>
      let key := index_to_name !! c_i in
      let val := norm (cell_text cell) in
      let product_url :=
        if bool_decide (key = Some "Product") then
          match cell_links cell with
          | [] => product_url
          | href :: _ => Py.or_str href ""
          end
        else product_url in
      let values :=
        if truthy key then
          match key with Some k => <[k := val]> values | None => values end
        else values in
      cells_loop index_to_name (S c_i) rest values product_url
  end.

(** The deduplication key of a row. *)
Definition dedupe_key (values : gmap string string) (product_url : string) : string :=
  let product_key := dict_get values "Product" "" in
  let key_norm := Py.strip (Py.lower product_key) in
  if Py.is_empty key_norm then
    if negb (Py.is_empty product_url) then
      "url::" +:+ Py.lower (Py.strip product_url)
    else
      let all_text := Py.join " | " (map (fun k => dict_get values k "") REQUIRED_HEADERS) in
      "row::" +:+ Py.lower (norm all_text)
  else key_norm.

Definition make_row (values : gmap string string) (product_url : string) : Row :=
  {| VID := dict_get values "VID" "";
     Vendor := dict_get values "Vendor" "";
     Product := dict_get values "Product" "";
     CCTL := dict_get values "CCTL" "";
     Certification_Date := dict_get values "Certification Date" "";
     Status := dict_get values "Status" "";
     Conformance_Claims := dict_get values "Conformance Claims" "";
     Assurance_Maintenance_Date := dict_get values "Assurance Maintenance Date" "";
     Maintenance_Update := dict_get values "Maintenance Update" "";
     Scheme := dict_get values "Scheme" "";
     Product_URL := product_url |}.

(** The body of the loop over the rows: the batch [rows] and the set
    [seen_products] after one row element. *)
Definition extract_row (index_to_name : gmap nat string) (r : RowEl)
    (rows : list Row) (seen_products : gset string)
  : list Row * gset string :=
  let cells := row_cells r in
  if bool_decide (length cells = 0) then (rows, seen_products)
  else
    let '(values, product_url) := cells_loop index_to_name 0 cells ∅ "" in
    let key_norm := dedupe_key values product_url in
    if bool_decide (key_norm ∈ seen_products) then (rows, seen_products)
    else (rows ++ [make_row values product_url], {[key_norm]} ∪ seen_products).

Fixpoint rows_loop (index_to_name : gmap nat string) (els : list RowEl)
    (rows : list Row) (seen_products : gset string)
  : list Row * gset string :=
  match els with
  | [] => (rows, seen_products)
  | r :: rest =>
      let '(rows, seen_products) := extract_row index_to_name r rows seen_products in
      rows_loop index_to_name rest rows seen_products
  end.

(** [_extract_rows]: the batch of new rows, and the set it has updated. *)
Definition _extract_rows (p : Page) (grid : string) (index_to_name : gmap nat string)
    (seen_products : gset string) : list Row * gset string :=
  rows_loop index_to_name (data_rows p grid) [] seen_products.

(** What the loop of [_extract_rows] computes for one row element: the
    dictionary [values] with the link, the key and the record. *)
Definition row_values (index_to_name : gmap nat string) (r : RowEl)
  : gmap string string * string :=
  cells_loop index_to_name 0 (row_cells r) ∅ "".

Definition row_key (index_to_name : gmap nat string) (r : RowEl) : string :=
  dedupe_key (row_values index_to_name r).1 (row_values index_to_name r).2.

Definition row_record (index_to_name : gmap nat string) (r : RowEl) : Row :=
  make_row (row_values index_to_name r).1 (row_values index_to_name r).2.

(** ** Pager helpers *)

Definition next_selectors : list string :=
  [ "button[title='Next page']";
    "button[aria-label='Go to next page']";
    "button[aria-label*='Next']";
    "button.MuiPaginationItem-previousNext[aria-label*='Next']" ].

(** [_pager_next_btn]: the locator of the first selector that matches. *)
Definition _pager_next_btn (p : Page) : option string :=
  first_matching (locate_button p) next_selectors.

(** [_is_disabled] of a button locator on page [p]. *)
Definition _is_disabled (p : Page) (btn : option string) : bool :=
  match btn with
  | None => true
  | Some sel =>
      match head (locate_button p sel) with
      | None => true
      | Some b =>
          negb (btn_enabled b)
          || Py.contains "Mui-disabled" (Py.or_str (btn_class b) "")
      end
  end.

(** ** Output records *)

(** [Row.to_dict]: the keys in the order they are written. *)
Definition to_dict (r : Row) : list (string * string) :=
  [ ("vid", VID r); ("vendor", Vendor r); ("product", Product r); ("cctl", CCTL r);
    ("certification_date", Certification_Date r); ("status", Status r);
    ("conformance_claims", Conformance_Claims r);
    ("assurance_maintenance_date", Assurance_Maintenance_Date r);
    ("maintenance_update", Maintenance_Update r); ("scheme", Scheme r);
    ("product_url", Product_URL r) ].

(** [Row()]: every field at its default. *)
Definition Row_default : Row :=
  {| VID := ""; Vendor := ""; Product := ""; CCTL := "";
     Certification_Date := ""; Status := "";
     Conformance_Claims := ""; Assurance_Maintenance_Date := "";
     Maintenance_Update := ""; Scheme := ""; Product_URL := "" |}.

(** A JSON value, as far as the outputs have them. *)
Inductive Json := JNull | JString (s : string).

Global Instance Json_eq_dec : EqDecision Json.
Proof. solve_decision. Defined.

(** The two files, as the values handed to the writers (the quoting of the
    CSV dialect and the escaping of JSON text are the writers' own): the CSV
    file is its rows of fields, the header row first; the JSONL file is its
    lines, one JSON object each, as the pairs of the object in order. *)
Record Files := {
  csv_file : option (list (list string));
  jsonl_file : option (list (list (string * Json)))
}.

Definition no_files : Files := {| csv_file := None; jsonl_file := None |}.

(** A field of a row dictionary as [csv] writes it: [None] as the empty
    string, a string as it is. *)
Definition csv_field (v : option string) : string := from_option id "" v.

(** The value of key [k] in a dictionary given by its pairs. *)
Fixpoint assoc {V} (k : string) (d : list (string * V)) : option V :=
  match d with
  | [] => None
  | (k', v) :: rest => if bool_decide (k = k') then Some v else assoc k rest
  end.

(** [csv.DictWriter.writerow] with the default [restval] and
    [extrasaction]: a key outside [fieldnames] raises [ValueError] ([None]
    here); a missing key is written as the empty string. *)
Definition DictWriter_writerow (fieldnames : list string)
    (d : list (string * option string)) : option (list string) :=
  if forallb (fun kv => bool_decide (kv.1 ∈ fieldnames)) d
  then Some (map (fun k => csv_field (mjoin (assoc k d))) fieldnames)
  else None.

Fixpoint DictWriter_writerows (fieldnames : list string)
    (ds : list (list (string * option string))) : option (list (list string)) :=
  match ds with
  | [] => Some []
  | d :: rest =>
      match DictWriter_writerow fieldnames d with
      | None => None
      | Some line =>
          match DictWriter_writerows fieldnames rest with
          | None => None
          | Some lines => Some (line :: lines)
          end
      end
  end.

(** [json.dumps] of a dictionary of optional strings: the object. *)
Definition json_dumps (d : list (string * option string)) : list (string * Json) :=
  map (fun kv => (kv.1, match kv.2 with Some s => JString s | None => JNull end)) d.

(** A dictionary of strings as one of optional strings (no [None] in it). *)
Definition strs (d : list (string * string)) : list (string * option string) :=
  map (fun kv => (kv.1, Some kv.2)) d.

(** ** The pagination driver ([run])

    The calls into the browser are taken not to raise; the two
    [RuntimeError]s of [run] are modelled.  The world given to [run] is the
    one after navigation and the dismissal of banners. *)

(** What [run] leaves behind. *)
Inductive Outcome :=
| Raised (exn : string) (fs : Files)      (* an exception leaves [run] *)
| Returned (count : nat) (fs : Files).    (* [run] returns [count] *)

Section Driver.

Context (b : Browser).

(** The variables of [run] that the loop changes, with a log of the
    actions performed on the browser so far ([trace], not a variable of the
    source). *)
Record Session := {
  page : world b;
  grid : string;
  all_rows : list Row;
  seen_products : gset string;
  trace : list Action
}.

(** One action on the browser. *)
Definition act (a : Action) (s : Session) : Session :=
  {| page := perform b a (page s); grid := grid s; all_rows := all_rows s;
     seen_products := seen_products s; trace := trace s ++ [a] |}.

(** [_scroll_grid_to_end(page, pause_ms, repeats)] *)
Definition _scroll_grid_to_end (pause_ms repeats : nat) (s : Session) : Session :=
  if has_scroller (dom_of b (page s))
  then Nat.iter repeats (fun s => act (WaitTimeout pause_ms) (act ScrollerToEnd s)) s
  else Nat.iter repeats (fun s => act (WaitTimeout pause_ms) (act (MouseWheel 0 2000) s)) s.

(** [collect_current], the closure of [run] *)
Definition collect_current (header_map : gmap nat string) (s : Session) : Session :=
  let s := _scroll_grid_to_end 120 10 s in
  let grid := from_option id (grid s) (_find_grid (dom_of b (page s))) in
  let '(batch, seen) :=
    _extract_rows (dom_of b (page s)) grid header_map (seen_products s) in
  {| page := page s; grid := grid; all_rows := all_rows s ++ batch;
     seen_products := seen; trace := trace s |}.

(** The ten settle pauses after a click. *)
Definition settle (s : Session) : Session :=
  Nat.iter 10 (fun s => _scroll_grid_to_end 40 1 (act (WaitTimeout 120) s)) s.

(** The test that ends the loop early: [total and len(seen_products) >= total] *)
Definition total_reached (total : nat) (s : Session) : bool :=
  negb (total =? 0) && bool_decide (total ≤ size (seen_products s)).

(** The [while] loop of [run].  [fuel] bounds the number of iterations of
    the model; [None] is a loop that has not ended within it. *)
Fixpoint pagination_loop (fuel : nat) (header_map : gmap nat string) (total : nat)
    (next_btn : option string) (safety : nat) (s : Session) : option Session :=
  match fuel with
  | 0 => None
  | S fuel =>
      match next_btn with
      | Some sel =>
          if negb (_is_disabled (dom_of b (page s)) next_btn) then
            let safety := safety + 1 in
            if bool_decide (100 < safety) then Some s
            else
              let s := act (Click sel) s in
              let s := settle s in
              let s := collect_current header_map s in
              let next_btn := _pager_next_btn (dom_of b (page s)) in
              if total_reached total s then Some s
              else pagination_loop fuel header_map total next_btn safety s
          else Some s
      | None => Some s
      end
  end.

(** The iterations the model allows the loop: the guard on [safety] ends
    it by the 101st. *)
Definition loop_fuel : nat := 101.

(** The session at the start: no record, no key, nothing done yet. *)
Definition start_session (w0 : world b) (grid0 : string) : Session :=
  {| page := w0; grid := grid0; all_rows := []; seen_products := ∅; trace := [] |}.

(** The session when the grid and the headers are found: the page size
    set, the first page scrolled to its end. *)
Definition prepare (w0 : world b) (grid0 : string) : Session :=
  let s := start_session w0 grid0 in
  let s := act SetPageSize s in
  _scroll_grid_to_end 120 10 s.

(** [total = _get_total_from_pager(page) or 0] *)
Definition pager_total (s : Session) : nat :=
  from_option id 0 (_get_total_from_pager (dom_of b (page s))).

(** The body of [with sync_playwright()]: the error raised, or the session
    at [browser.close()].  [None]: the loop has not ended within
    [loop_fuel]. *)
Definition drive (w0 : world b) : option (string + Session) :=
  match _find_grid (dom_of b w0) with
  | None => Some (inl "Could not locate the products grid/table.")
  | Some grid0 =>
      let header_map := _get_headers (dom_of b w0) grid0 in
      if bool_decide (size header_map = 0)
      then Some (inl "Could not read column headers; grid structure may have changed.")
      else
        let s := prepare w0 grid0 in
        let total := pager_total s in
        let s := collect_current header_map s in
        let next_btn := _pager_next_btn (dom_of b (page s)) in
        match pagination_loop loop_fuel header_map total next_btn 0 s with
        | None => None
        | Some s => Some (inr (collect_current header_map s))
        end
  end.

(** The two writes at the end of [run].  A [ValueError] of the CSV writer
    would leave a partial CSV file, which is not modelled: the writer never
    raises on the dictionaries of [to_dict] (lemma [write_outputs_unfold]). *)
Definition write_outputs (rows : list Row) (fs : Files) : Outcome :=
  let fieldnames := map fst (to_dict Row_default) in
  match DictWriter_writerows fieldnames (map (fun r => strs (to_dict r)) rows) with
  | None => Raised "ValueError" fs
  | Some lines =>
      let fs := {| csv_file := Some (fieldnames :: lines); jsonl_file := jsonl_file fs |} in
      let fs := {| csv_file := csv_file fs;
                   jsonl_file := Some (map (fun r => json_dumps (strs (to_dict r))) rows) |} in
      Returned (length rows) fs
  end.

(** [run], from the world [w0] and the files [fs] present before it. *)
Definition run (w0 : world b) (fs : Files) : option Outcome :=
  match drive w0 with
  | None => None
  | Some (inl exn) => Some (Raised exn fs)
  | Some (inr s) => Some (write_outputs (all_rows s) fs)
  end.

End Driver.

Arguments page {b} s.
Arguments grid {b} s.
Arguments all_rows {b} s.
Arguments seen_products {b} s.
Arguments trace {b} s.

(** The number of clicks on the next-page control in a log (the only
    [Click] of the driver is [next_btn.click()]). *)
Definition is_click (a : Action) : bool :=
  match a with Click _ => true | _ => false end.

Definition next_clicks (tr : list Action) : nat :=
  length (List.filter is_click tr).

(** ** The label table of [cc_scraper/utils.py] *)

Definition FIELD_ALIASES : list (string * list string) :=
  [ ("VID", ["VID"; "Validation ID"; "VPL ID"; "Validation Identifier"]);
    ("Vendor", ["Vendor"; "Manufacturer"]);
    ("Product", ["Product"; "Product Name"; "TOE"]);
    ("CCTL", ["CCTL"; "CC Testing Lab"; "Lab"; "Testing Laboratory"]);
    ("Certification Date",
      ["Certification Date"; "Check-in Date"; "Validation Date"; "Date"]);
    ("Status", ["Status"; "State"]);
    ("Conformance Claims",
      ["Conformance Claims"; "PP"; "Protection Profile"; "Conformance"]);
    ("Assurance Maintenance Date",
      ["Assurance Maintenance Date"; "AMD"; "Maintenance Date"]);
    ("Maintenance Update",
      ["Maintenance Update"; "Maintenance"; "Assurance Maintenance"]);
    ("Scheme", ["Scheme"; "Country"]) ].

(** [normalize_label]: the canonical name of the first alias equal to the
    stripped label up to case, or else the stripped label. *)
Fixpoint normalize_label_go (label : string) (table : list (string * list string))
  : string :=
  match table with
  | [] => label
  | (canonical, aliases) :: rest =>
      if existsb (fun a => bool_decide (Py.lower a = Py.lower label)) aliases
      then canonical
      else normalize_label_go label rest
  end.

Definition normalize_label (label : string) : string :=
  normalize_label_go (Py.strip label) FIELD_ALIASES.

(** ** The record of [cc_scraper/niap_scraper.py] *)

Definition CANON_FIELDS : list string :=
  [ "VID"; "Vendor"; "Product"; "CCTL"; "Certification Date"; "Status";
    "Conformance Claims"; "Assurance Maintenance Date"; "Maintenance Update";
    "Scheme" ].

Module Legacy.

(** An instance of the dataclass [Record]: its attributes by name; every
    field is a string or [None]. *)
Abbreviation Record := (gmap string (option string)).

(** [Record()]: every field [None]. *)
Definition Record_default : Record :=
  list_to_map
    [ ("VID", None); ("Vendor", None); ("Product", None); ("CCTL", None);
      ("Certification_Date", None); ("Status", None);
      ("Conformance_Claims", None); ("Assurance_Maintenance_Date", None);
      ("Maintenance_Update", None); ("Scheme", None); ("Product_URL", None) ].

Definition getattr (rec : Record) (name : string) : option string :=
  mjoin (rec !! name).

Definition setattr (rec : Record) (name : string) (v : option string) : Record :=
  <[name := v]> rec.

(** [Record.to_dict] *)
Definition to_dict (rec : Record) : list (string * option string) :=
  [ ("vid", getattr rec "VID"); ("vendor", getattr rec "Vendor");
    ("product", getattr rec "Product"); ("cctl", getattr rec "CCTL");
    ("certification_date", getattr rec "Certification_Date");
    ("status", getattr rec "Status");
    ("conformance_claims", getattr rec "Conformance_Claims");
    ("assurance_maintenance_date", getattr rec "Assurance_Maintenance_Date");
    ("maintenance_update", getattr rec "Maintenance_Update");
    ("scheme", getattr rec "Scheme");
    ("product_url", getattr rec "Product_URL") ].

(** [f.replace(space, underscore)] *)
Fixpoint replace_spaces (f : string) : string :=
  match f with
  | EmptyString => EmptyString
  | String a f' =>
      String (if bool_decide (a = " "%char) then "_"%char else a) (replace_spaces f')
  end.

(** A product card as [scrape_page] reads it: the dictionary that
    [_extract_fields_from_card] returns for it, and the [href] of each of
    its detail links. *)
Record Card := { card_fields : gmap string string; card_links : list (option string) }.

(** The first alias of [f] that is a key of [fields]: its value. *)
Fixpoint first_alias (fields : gmap string string) (aliases : list string)
  : option string :=
  match aliases with
  | [] => None
  | alias :: rest =>
      match fields !! alias with
      | Some v => Some v
      | None => first_alias fields rest
      end
  end.

(** The loop over [CANON_FIELDS] in [scrape_page]. *)
Fixpoint map_fields (fields : gmap string string) (fs : list string) (rec : Record)
  : Record :=
  match fs with
  | [] => rec
  | f :: rest =>
      let v :=
        match fields !! f with
        | Some v => Some v
        | None => first_alias fields (from_option id [] (assoc f FIELD_ALIASES))
        end in
      map_fields fields rest
        (if truthy v then setattr rec (replace_spaces f) v else rec)
  end.

(** The record [scrape_page] appends for one card. *)
Definition record_of_card (card : Card) : Record :=
  let rec := map_fields (card_fields card) CANON_FIELDS Record_default in
  match card_links card with
  | [] => rec
  | href :: _ => setattr rec "Product_URL" href
  end.

(** The two writes at the end of [run] of [niap_scraper.py]. *)
Definition write_outputs (results : list Record) (fs : Files) : Outcome :=
  let fieldnames := map fst (to_dict Record_default) in
  match DictWriter_writerows fieldnames (map to_dict results) with
  | None => Raised "ValueError" fs
  | Some lines =>
      let fs := {| csv_file := Some (fieldnames :: lines); jsonl_file := jsonl_file fs |} in
      let fs := {| csv_file := csv_file fs;
                   jsonl_file := Some (map (fun r => json_dumps (to_dict r)) results) |} in
      Returned (length results) fs
  end.

End Legacy.

(** ** Notions used in the statements *)

(** A row element is skipped when it has no cell or when its key is known. *)
Definition skipped (hm : gmap nat string) (seen : gset string) (r : RowEl) : Prop :=
  length (row_cells r) = 0 ∨ row_key hm r ∈ seen.

Fixpoint no_space (s : string) : bool :=
  match s with
  | EmptyString => true
  | String a s' => negb (Py.isspace a) && no_space s'
  end.

(** A word of [split]: not empty, no white space in it. *)
Definition is_word (w : string) : Prop := w ≠ EmptyString ∧ no_space w = true.


(** The steps of the driver: an action on the browser, or the extraction
    of the rows the page shows (the part of [collect_current] after its
    scroll). *)
Definition extract_current (b : Browser) (header_map : gmap nat string)
    (s : Session b) : Session b :=
  let grid := from_option id (grid s) (_find_grid (dom_of b (page s))) in
  let '(batch, seen) :=
    _extract_rows (dom_of b (page s)) grid header_map (seen_products s) in
  {| page := page s; grid := grid; all_rows := all_rows s ++ batch;
     seen_products := seen; trace := trace s |}.

Inductive driver_step (b : Browser) (header_map : gmap nat string)
  : Session b → Session b → Prop :=
| step_act a s : driver_step b header_map s (act b a s)
| step_extract s : driver_step b header_map s (extract_current b header_map s).

(** Each accumulated record stands for one key of the set. *)
Definition counted {b : Browser} (s : Session b) : Prop :=
  length (all_rows s) = size (seen_products s).

(** One turn of the loop that is not cut short: click, settle, collect. *)
Definition advance (b : Browser) (header_map : gmap nat string) (sel : string)
    (s : Session b) : Session b :=
  collect_current b header_map (settle b (act b (Click sel) s)).

(** The same turn with the control that [_pager_next_btn] finds on the page
    of [s] (no turn when it finds none). *)
Definition advance_next (b : Browser) (header_map : gmap nat string)
    (s : Session b) : Session b :=
  match _pager_next_btn (dom_of b (page s)) with
  | Some sel => advance b header_map sel s
  | None => s
  end.

(** The next-page control is found and enabled on page [p]. *)
Definition next_enabled (p : Page) : Prop :=
  ∃ sel, _pager_next_btn p = Some sel ∧ _is_disabled p (Some sel) = false.

(** The names of the eleven output fields, in the order of the outputs. *)
Definition output_fields : list string :=
  [ "vid"; "vendor"; "product"; "cctl"; "certification_date"; "status";
    "conformance_claims"; "assurance_maintenance_date"; "maintenance_update";
    "scheme"; "product_url" ].

(** A JSON object whose values are all strings: its pairs. *)
Definition json_strings (d : list (string * string)) : list (string * Json) :=
  map (fun kv => (kv.1, JString kv.2)) d.

(** ** Example pages *)

Module Ex.

Definition cell (t : string) : Cell := {| cell_text := t; cell_links := [] |}.


Definition grid_row (cells : list Cell) : RowEl :=
  {| row_gridcells := cells; row_tds := [] |}.




(** A header row that names the scheme twice, and a row under it. *)
Definition hm_twice : gmap nat string :=
  headers_loop 0 ["VID"; "Scheme"; "Product"; "Country"; "scheme "] ∅.

Definition row_twice : RowEl :=
  grid_row [cell "12"; cell "US"; cell "Widget"; cell "n/a"; cell " CA "].

(** A page: one grid (by role) with the given header cells and rows, a
    scroller, the caption of the pager and the next-page button. *)
Definition a_page (headers : list string) (rows : list RowEl)
    (caption : list string) (next : list Button) : Page :=
  {| locate_grid := fun sel =>
       if bool_decide (sel = "div[role='grid']")
       then [ {| grid_ths := []; grid_trs := [] |} ] else [];
     columnheaders := headers;
     role_rows := rows;
     has_scroller := true;
     locate_text := fun sel =>
       if bool_decide (sel = "div.MuiTablePagination-displayedRows")
       then caption else [];
     locate_button := fun sel =>
       if bool_decide (sel = "button[title='Next page']") then next else [] |}.

Definition enabled_button : Button := {| btn_enabled := true; btn_class := None |}.

(** A browser that shows one page whatever is done to it. *)
Definition still (p : Page) : Browser :=
  {| world := unit; dom_of := fun _ => p; perform := fun _ w => w |}.



(** One row, no caption, a next-page button that stays enabled. *)
Definition page_endless : Page :=
  a_page ["VID"; "Product"] [grid_row [cell "1"; cell "Widget"]] [] [enabled_button].

(** A page with no grid at all, and a page whose headers resolve to
    nothing. *)
Definition page_no_grid : Page :=
  {| locate_grid := fun _ => []; columnheaders := ["VID"]; role_rows := [];
     has_scroller := false; locate_text := fun _ => []; locate_button := fun _ => [] |}.

Definition page_no_headers : Page :=
  a_page ["Id"; "Product Name"; "Country"] [grid_row [cell "1"; cell "Widget"; cell "US"]]
    [] [].

(** The header row of the header-resolution example, over one row. *)
Definition page_five_headers : Page :=
  a_page ["VID"; "Vendor"; "Product Name"; "CCTL"; "Country"]
    [grid_row [cell "10"; cell "Acme"; cell "Widget"; cell "Lab"; cell "US"]] [] [].

(** A product card on which only the vendor is given. *)
Definition card_vendor_only : Legacy.Card :=
  {| Legacy.card_fields := {[ "Vendor" := "Acme" ]}; Legacy.card_links := [] |}.

(** The header map of [page_endless], and the files a run over it writes. *)
Definition hm_endless : gmap nat string :=
  _get_headers page_endless "div[role='grid']".

Definition files_endless : Files :=
  {| csv_file := Some [ output_fields;
                        ["1"; ""; "Widget"; ""; ""; ""; ""; ""; ""; ""; ""] ];
     jsonl_file := Some [ json_strings
                            [ ("vid", "1"); ("vendor", ""); ("product", "Widget");
                              ("cctl", ""); ("certification_date", "");
                              ("status", ""); ("conformance_claims", "");
                              ("assurance_maintenance_date", "");
                              ("maintenance_update", ""); ("scheme", "");
                              ("product_url", "") ] ] |}.

(** Files left by an earlier run. *)
Definition old_files : Files :=
  {| csv_file := Some [["vid"]; ["7"]]; jsonl_file := Some [[("vid", JString "7")]] |}.

End Ex.

(** ** Further notions *)

(** The deduplication key, read back from a record: [make_row] keeps the
    ten canonical values and the link, which are all that [dedupe_key] reads. *)
Definition key_of_row (r : Row) : string :=
  let key_norm := Py.strip (Py.lower (Product r)) in
  if Py.is_empty key_norm then
    if negb (Py.is_empty (Product_URL r)) then
      "url::" +:+ Py.lower (Py.strip (Product_URL r))
    else
      let all_text :=
        Py.join " | "
          [ VID r; Vendor r; Product r; CCTL r; Certification_Date r; Status r;
            Conformance_Claims r; Assurance_Maintenance_Date r;
            Maintenance_Update r; Scheme r ] in
      "row::" +:+ Py.lower (norm all_text)
  else key_norm.

(** A row element that [_extract_rows] reads: it has a cell. *)
Definition has_cells (r : RowEl) : bool :=
  negb (bool_decide (length (row_cells r) = 0)).


(** The keys of the row elements that have a cell. *)
Definition rendered_keys (hm : gmap nat string) (els : list RowEl) : gset string :=
  list_to_set (map (row_key hm) (List.filter has_cells els)).

(** The keys of a list of records. *)
Definition record_keys (rows : list Row) : list string := map key_of_row rows.

(** The records are told apart by their keys, and the set holds those
    keys. *)
Definition keyed {b : Browser} (s : Session b) : Prop :=
  NoDup (record_keys (all_rows s))
  ∧ seen_products s = list_to_set (record_keys (all_rows s)).

Module Ex2.

(** Two rows of one product under different labs, the second in another
    case and spacing, and a third row of another product. *)
Definition hm_pl : gmap nat string :=
  headers_loop 0 ["Product"; "CCTL"] ∅.

Definition row_w1 : RowEl := Ex.grid_row [Ex.cell "Widget Pro"; Ex.cell "Lab A"].
Definition row_w2 : RowEl := Ex.grid_row [Ex.cell " WIDGET  pro "; Ex.cell "Lab B"].
Definition row_g : RowEl := Ex.grid_row [Ex.cell "Gadget"; Ex.cell "Lab A"].

(** A row element with no cell at all. *)
Definition row_empty : RowEl := {| row_gridcells := []; row_tds := [] |}.

Definition page_w : Page :=
  Ex.a_page ["Product"; "CCTL"] [row_empty; row_w1; row_g; row_w2] [] [].

End Ex2.

Module Ex3.

(** A page whose next-page button is enabled for the browser but carries
    the class of a disabled control. *)
Definition greyed_button : Button :=
  {| btn_enabled := true; btn_class := Some "MuiButtonBase-root Mui-disabled" |}.

Definition page_last : Page :=
  Ex.a_page ["VID"; "Product"] [Ex.grid_row [Ex.cell "1"; Ex.cell "Widget"]] []
    [greyed_button].

End Ex3.

(** ** The rest of [cc_scraper/utils.py] *)

(** [re.sub] of the pattern for one or more white-space characters by one
    space: every maximal run of white space becomes one space.  [in_run]
    tells that the character before was white space (the run is already
    replaced). *)
Fixpoint sub_ws_go (in_run : bool) (s : string) : string :=
  match s with
  | EmptyString => EmptyString
  | String a s' =>
      if Py.isspace a
      then (if in_run then sub_ws_go true s' else String " " (sub_ws_go true s'))
      else String a (sub_ws_go false s')
  end.

(** [squash_ws] *)
Definition squash_ws (text : string) : string :=
  Py.strip (sub_ws_go false text).

(** The canonical name of the first entry of a label table with an alias
    that is [h] in lower case. *)
Fixpoint find_canonical (h : string) (table : list (string * list string))
  : option string :=
  match table with
  | [] => None
  | (canonical, aliases) :: rest =>
      if existsb (fun a => bool_decide (Py.lower a = h)) aliases
      then Some canonical
      else find_canonical h rest
  end.

(** ** The card scraper ([cc_scraper/niap_scraper.py]) *)

Module Cards.

(** A product card element: the inner texts of its [dt] and of its [dd]
    elements, its own [inner_text()] (the empty string when the call
    raises), and the [href] of each of its detail links. *)
Record CardEl := {
  el_dts : list string;
  el_dds : list string;
  el_inner_text : string;
  el_links : list (option string)
}.

(** A line boundary of [str.splitlines] (ASCII range): line feed, vertical
    tab, form feed, carriage return, and the separators 28..30. *)
Definition is_linebreak (a : ascii) : bool :=
  let n := nat_of_ascii a in
  ((10 <=? n) && (n <=? 13)) || ((28 <=? n) && (n <=? 30)).

(** [s.splitlines()]: the text between line boundaries; a carriage return
    followed by a line feed is one boundary; no empty line is added at the
    end.  [after_cr] tells that the character before was a carriage return,
    [cur] is the line being read. *)
Fixpoint splitlines_go (after_cr : bool) (cur : string) (s : string) : list string :=
  match s with
  | EmptyString => if Py.is_empty cur then [] else [cur]
  | String a s' =>
      if after_cr && bool_decide (a = "010"%char)
      then splitlines_go false cur s'
      else if is_linebreak a
      then cur :: splitlines_go (bool_decide (a = "013"%char)) EmptyString s'
      else splitlines_go false (cur +:+ String a EmptyString) s'
  end.

Definition splitlines (s : string) : list string :=
  splitlines_go false EmptyString s.

(** [line.split(colon, 1)] when the line has a colon: the text before the
    first colon and the text after it. *)
Fixpoint partition_colon (line : string) : option (string * string) :=
  match line with
  | EmptyString => None
  | String a rest =>
      if bool_decide (a = ":"%char) then Some (EmptyString, rest)
      else match partition_colon rest with
           | Some (label, value) => Some (String a label, value)
           | None => None
           end
  end.

(** Strategy 1, the definition list: [data[label] = value] for each pair. *)
Fixpoint dl_loop (dts dds : list string) (data : gmap string string)
  : gmap string string :=
  match dts, dds with
  | dt :: dts', dd :: dds' =>
      let label := normalize_label (squash_ws dt) in
      let value := squash_ws dd in
      dl_loop dts' dds' (<[label := value]> data)
  | _, _ => data
  end.

(** Strategy 2, the lines with a colon: [data.setdefault(label, value)] for
    each line whose label is not empty. *)
Fixpoint lines_loop (lines : list string) (data : gmap string string)
  : gmap string string :=
  match lines with
  | [] => data
  | line :: rest =>
      match partition_colon line with
      | Some (label, value) =>
          let label := normalize_label (squash_ws label) in
          let value := squash_ws value in
          lines_loop rest
            (if negb (Py.is_empty label) then
               match data !! label with
               | Some _ => data
               | None => <[label := value]> data
               end
             else data)
      | None => lines_loop rest data
      end
  end.

Definition _extract_fields_from_card (el : CardEl) : gmap string string :=
  if bool_decide (length (el_dts el) ≠ 0)
     && bool_decide (length (el_dds el) ≠ 0)
     && bool_decide (length (el_dts el) = length (el_dds el))
  then dl_loop (el_dts el) (el_dds el) ∅
  else lines_loop (splitlines (el_inner_text el)) ∅.

(** The card as the loop of [scrape_page] reads it. *)
Definition read_card (el : CardEl) : Legacy.Card :=
  {| Legacy.card_fields := _extract_fields_from_card el;
     Legacy.card_links := el_links el |}.

(** A key of a dictionary of fields is a label as [normalize_label] leaves
    it: a canonical name, or a text that is no alias of the table in any
    case. *)
Definition normalized_key (k : string) : Prop :=
  k ∈ CANON_FIELDS ∨ find_canonical (Py.lower k) FIELD_ALIASES = None.

(** The value that [scrape_page] finds for the field [f] in a dictionary:
    under the canonical name, or else under the first alias that is a key. *)
Definition field_value (fields : gmap string string) (f : string) : option string :=
  match fields !! f with
  | Some v => Some v
  | None => Legacy.first_alias fields (from_option id [] (assoc f FIELD_ALIASES))
  end.

(** A dictionary of fields as [_extract_fields_from_card] builds them:
    normalised labels as keys, normalised texts as values. *)
Definition fields_ok (data : gmap string string) : Prop :=
  map_Forall (λ k v, normalized_key k ∧ norm v = v) data.

(** A card given by its lines. *)
Definition card_of_text (t : string) : CardEl :=
  {| el_dts := []; el_dds := []; el_inner_text := t; el_links := [] |}.

End Cards.

Module Ex4.

Definition nl : string := String "010"%char EmptyString.

(** A card given by lines: [toe] is an alias of the product, and the
    product is named twice. *)
Definition card_lines : Cards.CardEl :=
  Cards.card_of_text
    ("VID: 10" +:+ nl +:+ "toe :  Widget  Pro" +:+ nl +:+ "Product: Other" +:+ nl
     +:+ ": x" +:+ nl +:+ "Note: a:b").

(** A card given by a definition list that names the vendor twice. *)
Definition card_dl : Cards.CardEl :=
  {| Cards.el_dts := ["Vendor"; "Manufacturer"]; Cards.el_dds := ["Acme"; " Apex  Ltd "];
     Cards.el_inner_text := ""; Cards.el_links := [Some "/products/7"] |}.

End Ex4.


(** ** The page-size menu ([_set_page_size_to_max] of [scripts/run_niap.py])

    The driver records the whole function as the one action [SetPageSize];
    here is what the function does inside: which combobox it opens and
    which entry of the menu it clicks. *)

Module PageSize.

(** A combobox: its two label attributes ([None] when absent) and the
    answer of [is_visible()]. *)
Record Combo := {
  aria_label : option string;
  aria_labelledby : option string;
  combo_visible : bool
}.

(** The page as the function queries it: the comboboxes by role, and the
    inner texts of the elements of role [option] and of role [menuitem]. *)
Record Menu := {
  comboboxes : list Combo;
  role_options : list string;
  role_menuitems : list string
}.

Inductive Step :=
| ClickCombobox (i : nat)              (* combos.nth(i).click() *)
| ClickChoice (role : string) (i : nat) (* options.nth(i).click() *)
| Wait (ms : nat).                     (* page.wait_for_timeout(ms) *)

Global Instance Step_eq_dec : EqDecision Step.
Proof. solve_decision. Defined.

Record Browser := {
  world : Type;
  menu_of : world -> Menu;
  perform : Step -> world -> world
}.

(** The text in which the label is looked for: the two attributes, each
    or the empty string, with one space between, in lower case. *)
Definition label_text (c : Combo) : string :=
  Py.lower ((Py.or_str (aria_label c) "" +:+ " ") +:+ Py.or_str (aria_labelledby c) "").

Definition labelled (c : Combo) : bool :=
  Py.contains "rows per page" (label_text c).

(** The first loop: the index of the first combobox with the label. *)
Fixpoint find_labelled (i : nat) (combos : list Combo) : option nat :=
  match combos with
  | [] => None
  | c :: rest => if labelled c then Some i else find_labelled (S i) rest
  end.

(** [target]: that combobox, or else the first one if there is any. *)
Definition choose_target (combos : list Combo) : option nat :=
  match find_labelled 0 combos with
  | Some i => Some i
  | None => if bool_decide (length combos ≠ 0) then Some 0 else None
  end.


Section Menu.

(** The limit of the interpreter on the number of digits that [int]
    converts ([sys.get_int_max_str_digits()]; [None]: no limit).  Beyond
    it [int] raises [ValueError]. *)
Variable max_str_digits : option nat.




Variable b : Browser.




End Menu.

End PageSize.

(** ** The pagination of the card scraper ([cc_scraper/niap_scraper.py])

    [scrape_page] and the loop of [run] over the next-page controls. *)

Module Site.

(** The page as the card scraper queries it. *)
Record Page := {
  (** [page.url] *)
  page_url : string;
  (** [page.locator(sel)] for the selectors of the cards *)
  locate_cards : string -> list Cards.CardEl;
  (** [page.locator(sel)] for the selectors of the next-page control:
      [is_enabled()] of each match *)
  locate_next : string -> list bool
}.

Inductive Step :=
| Goto (url : string)
| WaitLoadState                 (* page.wait_for_load_state(networkidle) *)
| MouseWheel (dx dy : nat)
| WaitTimeout (ms : nat)
| Click (selector : string).    (* next_btn.first.click() *)

Global Instance Step_eq_dec : EqDecision Step.
Proof. solve_decision. Defined.

Record Browser := {
  world : Type;
  page_of : world -> Page;
  perform : Step -> world -> world
}.

(** [TARGET_URL] when the environment does not set [NIAP_URL]. *)
Definition TARGET_URL : string := "https://www.niap-ccevs.org/products".

Definition card_selectors : list string :=
  [ "[data-testid='product-card']";
    "article:has-text('VID')";
    "div.card:has-text('VID')";
    ".product-card, .card, .grid > div" ].

Definition any_card : string := "article, .card, [data-testid]".

Definition next_selectors : list string :=
  [ "button[aria-label='Next']"; "a[rel='next']";
    "button:has-text('Next')"; "a:has-text('Next')" ].

(** The record [scrape_page] appends for a card element. *)
Definition record_of (el : Cards.CardEl) : Legacy.Record :=
  Legacy.record_of_card (Cards.read_card el).

Section Run.

Variable b : Browser.

(** The state of [run]: the browser, the list [results], and what has
    been done to the browser so far. *)
Record State := {
  now : world b;
  results : list Legacy.Record;
  done : list Step
}.

Definition act (a : Step) (s : State) : State :=
  {| now := perform b a (now s); results := results s; done := done s ++ [a] |}.

Definition card_count (s : State) (sel : string) : nat :=
  length (locate_cards (page_of b (now s)) sel).

(** The scrolling of [scrape_page] when no selector has matched: at most
    [n] turns of the wheel, until the wide selector matches. *)
Fixpoint scroll_for_cards (n : nat) (cards : option string) (s : State)
  : State * option string :=
  match n with
  | 0 => (s, cards)
  | S n' =>
      let s := act (MouseWheel 0 2000) s in
      let s := act (WaitTimeout 300) s in
      if bool_decide (card_count s any_card ≠ 0) then (s, Some any_card)
      else scroll_for_cards n' cards s
  end.

(** The locator [cards] of [scrape_page] and the state when the loop over
    the cards starts. *)
Definition find_cards (s : State) : State * option string :=
  let s := act WaitLoadState s in
  let cards := first_matching (locate_cards (page_of b (now s))) card_selectors in
  let missing :=
    match cards with
    | None => true
    | Some sel => bool_decide (card_count s sel = 0)
    end in
  if missing then scroll_for_cards 10 cards s else (s, cards).

(** [scrape_page]: one record appended for each card. *)
Definition scrape_page (s : State) : State :=
  let '(s, cards) := find_cards s in
  match cards with
  | None => s
  | Some sel =>
      {| now := now s;
         results := results s ++ map record_of (locate_cards (page_of b (now s)) sel);
         done := done s |}
  end.

(** The [for] loop over the selectors of the next-page control: the first
    one that matches with an enabled first element. *)
Fixpoint enabled_next (p : Page) (sels : list string) : option string :=
  match sels with
  | [] => None
  | sel :: rest =>
      match locate_next p sel with
      | true :: _ => Some sel
      | _ => enabled_next p rest
      end
  end.

(** [key = page.url + "::" + str(len(results))] *)
Definition loop_key (s : State) : string :=
  (page_url (page_of b (now s)) +:+ "::") +:+ pretty (length (results s)).

(** What one turn of the [while] loop does once its guard has let it
    through: the click, the two waits and the scraping. *)
Definition advance (sel : string) (s : State) : State :=
  let s := act (Click sel) s in
  let s := act WaitLoadState s in
  let s := act (WaitTimeout 1000) s in
  scrape_page s.

(** The [while has_next] loop of [run].  [fuel] bounds the number of turns
    of the model; [None] is a loop that has not ended within it. *)
Fixpoint next_loop (fuel : nat) (seen : gset string) (s : State) : option State :=
  match fuel with
  | 0 => None
  | S fuel =>
      match enabled_next (page_of b (now s)) next_selectors with
      | None => Some s
      | Some sel =>
          let key := loop_key s in
          if bool_decide (key ∈ seen) then Some s
          else next_loop fuel ({[key]} ∪ seen) (advance sel s)
      end
  end.

(** The state when the loop starts: the target loaded, the first page
    scraped. *)
Definition first_page (w0 : world b) : State :=
  let s := {| now := w0; results := []; done := [] |} in
  let s := act (Goto TARGET_URL) s in
  let s := act (WaitTimeout 1000) s in
  scrape_page s.

(** [run] of [niap_scraper.py] within [fuel] turns of its loop, from the
    world [w0] and the files [fs] present before it; the directory of the
    outputs can be made and the two files opened. *)
Definition run (fuel : nat) (w0 : world b) (fs : Files) : option Outcome :=
  match next_loop fuel ∅ (first_page w0) with
  | None => None
  | Some s => Some (Legacy.write_outputs (results s) fs)
  end.

(** Every key of the guard's set ends in a number below the number of
    records, or in that number when the last turn has added no record. *)
Definition keys_below (seen : gset string) (s : State) : Prop :=
  ∀ k, k ∈ seen →
    ∃ u n, k = (u +:+ "::") +:+ pretty n ∧
      (n < length (results s) ∨
       (n = length (results s) ∧
        ∃ sel s1, s = advance sel s1 ∧ length (results s1) = length (results s))).



End Run.

Arguments now {b} s.
Arguments results {b} s.
Arguments done {b} s.

Definition is_click (a : Step) : bool :=
  match a with Click _ => true | _ => false end.

(** The number of clicks on a next-page control in a log. *)
Definition clicks (tr : list Step) : nat := length (List.filter is_click tr).



(** A text without a colon. *)
Fixpoint no_colon (s : string) : bool :=
  match s with
  | EmptyString => true
  | String a s' => negb (bool_decide (a = ":"%char)) && no_colon s'
  end.

End Site.

Module Ex5.

Import PageSize.


Definition combos : list Combo :=
  [ {| aria_label := Some "Language"; aria_labelledby := None; combo_visible := true |};
    {| aria_label := None; aria_labelledby := Some "Rows Per Page:"; combo_visible := true |} ].


End Ex5.

Module Ex6.

Import Site.

(** A site whose every page shows the same two cards and an enabled
    next-page control, at an address that never changes. *)
Definition two_cards : list Cards.CardEl := [Ex4.card_dl; Ex4.card_lines].

Definition endless_page : Page :=
  {| page_url := "https://site/products";
     locate_cards := fun sel =>
       if bool_decide (sel = "article:has-text('VID')") then two_cards else [];
     locate_next := fun sel =>
       if bool_decide (sel = "a[rel='next']") then [true] else [] |}.

Definition endless : Browser :=
  {| world := unit; page_of := fun _ => endless_page; perform := fun _ w => w |}.

(** A site of three pages of one card each; the next-page control of the
    last page is still enabled but leads nowhere, and the last page shows
    its card only on the first visit. *)
Definition paged_page (n : nat) (visited : bool) : Page :=
  {| page_url := "https://site/products?page=" +:+ pretty n;
     locate_cards := fun sel =>
       if bool_decide (sel = "[data-testid='product-card']") && negb visited
       then [Ex4.card_dl] else [];
     locate_next := fun sel =>
       if bool_decide (sel = "button:has-text('Next')") then [true] else [] |}.

Definition paged : Browser :=
  {| world := nat * bool;
     page_of := fun w => paged_page (fst w) (snd w);
     perform := fun a w =>
       match a with
       | Click _ => if bool_decide (fst w < 3) then (S (fst w), false) else (fst w, true)
       | _ => w
       end |}.

End Ex6.
(** * Properties *)

(** ** Extraction and deduplication *)

Lemma extract_row_unfold hm r rows seen :
  extract_row hm r rows seen =
    if bool_decide (length (row_cells r) = 0) then (rows, seen)
    else if bool_decide (row_key hm r ∈ seen) then (rows, seen)
    else (rows ++ [row_record hm r], {[row_key hm r]} ∪ seen).
Proof.
  unfold extract_row, row_key, row_record, row_values.
  destruct (cells_loop hm 0 (row_cells r) ∅ "") as [values url]; reflexivity.
Qed.

Lemma extract_row_skipped hm r rows seen :
  skipped hm seen r → extract_row hm r rows seen = (rows, seen).
Proof.
  intros Hs. rewrite extract_row_unfold.
  case_bool_decide; [done|]. case_bool_decide; [done|].
  destruct Hs; contradiction.
Qed.

Lemma extract_row_grows hm r rows seen rows' seen' :
  extract_row hm r rows seen = (rows', seen') →
  seen ⊆ seen' ∧ skipped hm seen' r ∧
  (∃ batch, rows' = rows ++ batch ∧ size seen' = size seen + length batch).
Proof.
  rewrite extract_row_unfold. unfold skipped.
  case_bool_decide as Hc.
  { intros [= <- <-]. split; [done|]. split; [by left|].
    exists []. by rewrite app_nil_r, Nat.add_0_r. }
  case_bool_decide as Hk.
  { intros [= <- <-]. split; [done|]. split; [by right|].
    exists []. by rewrite app_nil_r, Nat.add_0_r. }
  intros [= <- <-]. split; [set_solver|]. split; [right; set_solver|].
  eexists; split; [done|].
  rewrite size_union by set_solver. rewrite size_singleton. simpl. lia.
Qed.

Lemma rows_loop_grows hm els : ∀ rows seen rows' seen',
  rows_loop hm els rows seen = (rows', seen') →
  seen ⊆ seen' ∧ Forall (skipped hm seen') els ∧
  (∃ batch, rows' = rows ++ batch ∧ size seen' = size seen + length batch).
Proof.
  induction els as [|r els IH]; intros rows seen rows' seen'; simpl.
  { intros [= <- <-]. split; [done|]. split; [constructor|].
    exists []. by rewrite app_nil_r, Nat.add_0_r. }
  destruct (extract_row hm r rows seen) as [rows1 seen1] eqn:E1.
  intros E2.
  apply extract_row_grows in E1 as (Hs1 & Hk1 & batch1 & -> & Hn1).
  apply IH in E2 as (Hs2 & Hk2 & batch2 & -> & Hn2).
  split; [by etrans|]. split.
  - constructor; [|done].
    destruct Hk1 as [?|?]; [by left|right; by apply Hs2].
  - exists (batch1 ++ batch2). rewrite <- app_assoc. split; [done|].
    rewrite length_app. lia.
Qed.

Lemma rows_loop_skipped hm els rows seen :
  Forall (skipped hm seen) els → rows_loop hm els rows seen = (rows, seen).
Proof.
  induction 1 as [|r els Hr _ IH]; simpl; [done|].
  by rewrite (extract_row_skipped _ _ _ _ Hr).
Qed.

(** ** Text: [norm] leaves nothing for [strip] and [lower] to undo *)

Lemma isspace_lower_char a : Py.isspace (Py.lower_char a) = Py.isspace a.
Proof. destruct a as [[] [] [] [] [] [] [] []]; reflexivity. Qed.

Lemma is_empty_lower s : Py.is_empty (Py.lower s) = Py.is_empty s.
Proof. by destruct s. Qed.

Lemma is_empty_true s : Py.is_empty s = true ↔ s = EmptyString.
Proof. by destruct s. Qed.




Lemma app_cons a s t : String a s +:+ t = String a (s +:+ t).
Proof. reflexivity. Qed.

Lemma app_empty_l t : EmptyString +:+ t = t.
Proof. reflexivity. Qed.

Lemma app_empty_r s : s +:+ EmptyString = s.
Proof. induction s as [|a s IH]; [done|]. by rewrite app_cons, IH. Qed.

Lemma app_assoc_str s t u : (s +:+ t) +:+ u = s +:+ t +:+ u.
Proof. induction s as [|a s IH]; [done|]. by rewrite !app_cons, IH. Qed.

Lemma no_space_app s t : no_space (s +:+ t) = no_space s && no_space t.
Proof.
  induction s as [|a s IH]; [done|].
  rewrite app_cons. simpl. rewrite IH. by rewrite andb_assoc.
Qed.

Lemma split_go_words s : ∀ cur,
  no_space cur = true → Forall is_word (Py.split_go cur s).
Proof.
  induction s as [|a s IH]; intros cur Hcur; simpl.
  - destruct cur; simpl; [constructor|].
    constructor; [|constructor]. by split.
  - destruct (Py.isspace a) eqn:Ha.
    + destruct cur; simpl.
      * by apply IH.
      * constructor; [by split|]. by apply IH.
    + apply IH. rewrite no_space_app, Hcur. simpl. by rewrite Ha.
Qed.

Lemma split_words s : Forall is_word (Py.split s).
Proof. by apply split_go_words. Qed.

Lemma lstrip_word w t : is_word w → Py.lstrip (w +:+ t) = w +:+ t.
Proof.
  intros [Hne Hns]. destruct w as [|a w]; [done|].
  rewrite app_cons. simpl in *. by destruct (Py.isspace a).
Qed.

Lemma rstrip_no_space w : no_space w = true → Py.rstrip w = w.
Proof.
  induction w as [|a w IH]; simpl; [done|].
  intros [Ha Hw]%andb_true_iff. rewrite (IH Hw).
  apply negb_true_iff in Ha. rewrite Ha. by rewrite andb_false_r.
Qed.

Lemma rstrip_app s t :
  Py.rstrip t ≠ EmptyString → Py.rstrip (s +:+ t) = s +:+ Py.rstrip t.
Proof.
  intros Ht. induction s as [|a s IH]; [done|].
  rewrite !app_cons. simpl. rewrite IH.
  destruct (s +:+ Py.rstrip t) eqn:E; [|done].
  destruct s; [by rewrite app_empty_l in E|by rewrite app_cons in E].
Qed.

Lemma concat_cons sep w v ws :
  String.concat sep (w :: v :: ws) = w +:+ sep +:+ String.concat sep (v :: ws).
Proof. reflexivity. Qed.

Lemma join_words_trimmed ws :
  Forall is_word ws →
  Py.lstrip (Py.join " " ws) = Py.join " " ws ∧
  Py.rstrip (Py.join " " ws) = Py.join " " ws ∧
  (ws ≠ [] → Py.join " " ws ≠ EmptyString).
Proof.
  unfold Py.join. induction 1 as [|w ws Hw Hws IH]; [done|].
  destruct ws as [|v ws].
  - simpl. destruct Hw as [Hne Hns]. split; [|split].
    + rewrite <- (app_empty_r w) at 1 2. by apply lstrip_word.
    + by apply rstrip_no_space.
    + done.
  - rewrite concat_cons. destruct IH as (_ & IHr & IHne).
    split; [by apply lstrip_word|]. split.
    + rewrite <- app_assoc_str. rewrite rstrip_app; rewrite IHr; [done|by apply IHne].
    + intros _. destruct Hw as [Hne _]. by destruct w.
Qed.

(** [norm] returns a text with no white space at either end, so the
    [strip] that follows it (in [norm] itself and in the key) changes
    nothing. *)
Lemma norm_join s : norm s = Py.join " " (Py.split s).
Proof.
  unfold norm, Py.strip.
  destruct (join_words_trimmed (Py.split s) (split_words s)) as (Hl & Hr & _).
  by rewrite Hl, Hr.
Qed.

Lemma strip_norm s : Py.strip (norm s) = norm s.
Proof.
  rewrite norm_join. unfold Py.strip.
  destruct (join_words_trimmed (Py.split s) (split_words s)) as (Hl & Hr & _).
  by rewrite Hl, Hr.
Qed.


(** ** The values of a row are normalised texts *)





(** ** The three-level key and the discarding of known rows *)

Lemma extract_row_kept hm r rows seen :
  length (row_cells r) ≠ 0 → row_key hm r ∉ seen →
  extract_row hm r rows seen = (rows ++ [row_record hm r], {[row_key hm r]} ∪ seen).
Proof.
  intros Hc Hk. rewrite extract_row_unfold.
  rewrite bool_decide_eq_false_2 by done. by rewrite bool_decide_eq_false_2.
Qed.





(** ** Two columns with one canonical name *)

Lemma cells_loop_untouched hm f cells : ∀ c_i values url,
  (∀ k, k < length cells → hm !! (c_i + k) ≠ Some f) →
  (cells_loop hm c_i cells values url).1 !! f = values !! f.
Proof.
  induction cells as [|cell cells IH]; intros c_i values url Hno; simpl; [done|].
  rewrite IH.
  - specialize (Hno 0 ltac:(simpl; lia)). rewrite Nat.add_0_r in Hno.
    destruct (hm !! c_i) as [k|]; simpl; [|done].
    destruct (negb (Py.is_empty k)); [|done].
    apply lookup_insert_ne. congruence.
  - intros k Hk. replace (S c_i + k) with (c_i + S k) by lia.
    apply Hno. simpl. lia.
Qed.

Lemma cells_loop_last_wins hm f cells : ∀ c_i values url j cell,
  f ≠ "" →
  cells !! j = Some cell →
  hm !! (c_i + j) = Some f →
  (∀ k, j < k < length cells → hm !! (c_i + k) ≠ Some f) →
  (cells_loop hm c_i cells values url).1 !! f = Some (norm (cell_text cell)).
Proof.
  induction cells as [|c cells IH]; intros c_i values url j cell Hf Hj Hm Hlast;
    [done|].
  destruct j as [|j].
  - simpl in Hj. injection Hj as ->. rewrite Nat.add_0_r in Hm. simpl.
    rewrite cells_loop_untouched.
    + rewrite Hm. simpl. destruct f; [done|]. simpl. apply lookup_insert_eq.
    + intros k Hk. replace (S c_i + k) with (c_i + S k) by lia.
      apply Hlast. simpl. lia.
  - simpl in Hj. simpl. eapply IH; [done|exact Hj| |].
    + by replace (S c_i + j) with (c_i + S j) by lia.
    + intros k Hk. replace (S c_i + k) with (c_i + S k) by lia.
      apply Hlast. simpl. lia.
Qed.

(** C7. When two column positions [i < j] resolve to the same canonical
    field and the row has a cell at both, the value stored for the field is
    the normalised text of the cell at [j], the right-most such column of the
    row: the cells are written in increasing column order and a later write
    replaces an earlier one.  For the field [Scheme] this is the value of
    the record. *)
Theorem duplicate_header_rightmost_wins (hm : gmap nat string) (r : RowEl)
    (i j : nat) (f : string) (ci cj : Cell) :
  f ≠ "" →
  i < j →
  hm !! i = Some f →
  hm !! j = Some f →
  row_cells r !! i = Some ci →
  row_cells r !! j = Some cj →
  (∀ k, j < k < length (row_cells r) → hm !! k ≠ Some f) →
  (row_values hm r).1 !! f = Some (norm (cell_text cj))
  ∧ (f = "Scheme" → Scheme (row_record hm r) = norm (cell_text cj)).
Proof.
  intros Hf Hij Hi Hj Hci Hcj Hlast.
  assert ((row_values hm r).1 !! f = Some (norm (cell_text cj))) as Hv.
  { unfold row_values. by eapply cells_loop_last_wins. }
  split; [done|]. intros ->.
  unfold row_record, make_row, dict_get. simpl. by rewrite Hv.
Qed.

(** The header row [VID, Scheme, Product, Country, scheme] resolves columns
    1 and 4 to [Scheme]; the record holds the text of column 4. *)
Lemma duplicate_header_rightmost_wins_witness :
  (row_values Ex.hm_twice Ex.row_twice).1 !! "Scheme" = Some "CA"
  ∧ ("Scheme" = "Scheme" → Scheme (row_record Ex.hm_twice Ex.row_twice) = "CA").
Proof.
  apply (duplicate_header_rightmost_wins Ex.hm_twice Ex.row_twice 1 4 "Scheme"
           (Ex.cell "US") (Ex.cell " CA "));
    try (by vm_compute); try lia.
  intros k [Hk1 Hk2]. simpl in Hk2. lia.
Defined.

(** ** The steps of the driver *)

Section DriverFacts.

Context (b : Browser) (hm : gmap nat string).

Abbreviation session := (Session b).
Abbreviation step := (driver_step b hm).

Lemma collect_current_unfold (s : session) :
  collect_current b hm s = extract_current b hm (_scroll_grid_to_end b 120 10 s).
Proof.
  unfold collect_current, extract_current.
  by destruct (_extract_rows _ _ _ _).
Qed.

Lemma next_clicks_app t1 t2 :
  next_clicks (t1 ++ t2) = next_clicks t1 + next_clicks t2.
Proof. unfold next_clicks. by rewrite List.filter_app, length_app. Qed.

Lemma next_clicks_act a (s : session) :
  next_clicks (trace (act b a s)) =
  next_clicks (trace s) + (if is_click a then 1 else 0).
Proof. simpl. rewrite next_clicks_app. unfold next_clicks. simpl. by destruct (is_click a). Qed.

(** *** Scrolling and settling: actions only, no click *)

Lemma iter_steps (g : session → session) n s :
  (∀ s, rtc step s (g s)) → rtc step s (Nat.iter n g s).
Proof.
  intros Hg. induction n as [|n IH]; simpl; [done|].
  etrans; [exact IH|apply Hg].
Qed.

Lemma iter_clicks (g : session → session) n s :
  (∀ s, next_clicks (trace (g s)) = next_clicks (trace s)) →
  next_clicks (trace (Nat.iter n g s)) = next_clicks (trace s).
Proof.
  intros Hg. induction n as [|n IH]; simpl; [done|]. by rewrite Hg.
Qed.

Lemma act_steps a (s : session) : rtc step s (act b a s).
Proof. apply rtc_once. constructor. Qed.

Lemma scroll_steps pause n (s : session) :
  rtc step s (_scroll_grid_to_end b pause n s).
Proof.
  unfold _scroll_grid_to_end.
  destruct (has_scroller _); apply iter_steps; intros s';
    (etrans; [apply act_steps|apply act_steps]).
Qed.

Lemma scroll_clicks pause n (s : session) :
  next_clicks (trace (_scroll_grid_to_end b pause n s)) = next_clicks (trace s).
Proof.
  unfold _scroll_grid_to_end.
  destruct (has_scroller _); apply iter_clicks; intros s';
    rewrite !next_clicks_act; simpl; lia.
Qed.

Lemma settle_steps (s : session) : rtc step s (settle b s).
Proof.
  apply iter_steps. intros s'. etrans; [apply act_steps|apply scroll_steps].
Qed.

Lemma settle_clicks (s : session) :
  next_clicks (trace (settle b s)) = next_clicks (trace s).
Proof.
  apply iter_clicks. intros s'.
  rewrite scroll_clicks, next_clicks_act. simpl. lia.
Qed.

(** *** Extraction: the set grows by the records appended *)

Lemma extract_current_grows (s : session) :
  page (extract_current b hm s) = page s ∧
  trace (extract_current b hm s) = trace s ∧
  seen_products s ⊆ seen_products (extract_current b hm s) ∧
  ∃ batch, all_rows (extract_current b hm s) = all_rows s ++ batch ∧
           size (seen_products (extract_current b hm s)) =
           size (seen_products s) + length batch.
Proof.
  unfold extract_current, _extract_rows.
  destruct (rows_loop _ _ _ _) as [batch seen'] eqn:E. simpl.
  apply rows_loop_grows in E as (Hsub & _ & batch' & Hb & Hn).
  simpl in Hb. subst batch'. eauto 10.
Qed.

Lemma collect_steps (s : session) : rtc step s (collect_current b hm s).
Proof.
  rewrite collect_current_unfold. eapply rtc_r; [apply scroll_steps|constructor].
Qed.

Lemma collect_clicks (s : session) :
  next_clicks (trace (collect_current b hm s)) = next_clicks (trace s).
Proof.
  rewrite collect_current_unfold.
  destruct (extract_current_grows (_scroll_grid_to_end b 120 10 s)) as (_ & -> & _).
  apply scroll_clicks.
Qed.

Lemma advance_steps sel (s : session) : rtc step s (advance b hm sel s).
Proof.
  unfold advance. etrans; [apply act_steps|].
  etrans; [apply settle_steps|apply collect_steps].
Qed.

Lemma advance_clicks sel (s : session) :
  next_clicks (trace (advance b hm sel s)) = next_clicks (trace s) + 1.
Proof.
  unfold advance. by rewrite collect_clicks, settle_clicks, next_clicks_act.
Qed.

(** *** What every step keeps *)

Lemma step_keeps (s s' : session) :
  step s s' →
  seen_products s ⊆ seen_products s' ∧ (counted s → counted s') ∧
  next_clicks (trace s) ≤ next_clicks (trace s').
Proof.
  destruct 1 as [a s|s].
  - split; [done|]. split; [done|]. rewrite next_clicks_act. lia.
  - destruct (extract_current_grows s) as (_ & Ht & Hsub & batch & Hb & Hn).
    split; [done|]. split; [|by rewrite Ht].
    unfold counted. rewrite Hb, Hn, length_app. lia.
Qed.

Lemma steps_keep (s s' : session) :
  rtc step s s' →
  seen_products s ⊆ seen_products s' ∧ (counted s → counted s') ∧
  next_clicks (trace s) ≤ next_clicks (trace s').
Proof.
  induction 1 as [s|s s1 s' H1 _ IH]; [done|].
  destruct (step_keeps _ _ H1) as (Ha & Hb & Hc).
  destruct IH as (Ha' & Hb' & Hc').
  split; [by etrans|]. split; [auto|lia].
Qed.

End DriverFacts.

(** ** The loop of the driver *)

Section LoopFacts.

Context (b : Browser) (hm : gmap nat string) (total : nat).

Abbreviation loop := (pagination_loop b).

(** One turn of the loop, as the source has it. *)
Lemma loop_unfold fuel btn k (s : Session b) :
  loop (S fuel) hm total btn k s =
    match btn with
    | Some sel =>
        if _is_disabled (dom_of b (page s)) btn then Some s
        else if bool_decide (100 < k + 1) then Some s
        else if total_reached b total (advance b hm sel s) then Some (advance b hm sel s)
        else loop fuel hm total
               (_pager_next_btn (dom_of b (page (advance b hm sel s)))) (k + 1)
               (advance b hm sel s)
    | None => Some s
    end.
Proof.
  simpl. destruct btn as [sel|]; [|done].
  by destruct (_is_disabled (dom_of b (page s)) (Some sel)).
Qed.

(** The loop ends within the iterations the guard on [safety] allows, and
    it is made of steps of the driver. *)
Lemma loop_returns fuel : ∀ btn k (s : Session b),
  101 ≤ fuel + k → k ≤ 100 →
  ∃ s', loop fuel hm total btn k s = Some s' ∧ rtc (driver_step b hm) s s'.
Proof.
  induction fuel as [|fuel IH]; intros btn k s Hfuel Hk; [lia|].
  rewrite loop_unfold. destruct btn as [sel|]; [|by eexists].
  destruct (_is_disabled _ _); [by eexists|].
  case_bool_decide; [by eexists|].
  destruct (total_reached _ _ _).
  { eexists; split; [done|]. apply advance_steps. }
  destruct (IH (_pager_next_btn (dom_of b (page (advance b hm sel s)))) (k + 1)
              (advance b hm sel s)) as (s' & Hs' & Hsteps); [lia..|].
  exists s'. split; [done|]. etrans; [apply advance_steps|done].
Qed.

(** With a control that is found and enabled on every page, and a total
    that is not reached, the loop clicks until the guard stops it. *)
Lemma loop_capped fuel : ∀ k (s : Session b),
  101 ≤ fuel + k → k ≤ 100 →
  (∀ w, next_enabled (dom_of b w)) →
  (∀ n, 1 ≤ n → n + k ≤ 100 →
        total_reached b total (Nat.iter n (advance_next b hm) s) = false) →
  ∃ s', loop fuel hm total (_pager_next_btn (dom_of b (page s))) k s = Some s' ∧
        next_clicks (trace s') = next_clicks (trace s) + (100 - k).
Proof.
  induction fuel as [|fuel IH]; intros k s Hfuel Hk Hen Hnot; [lia|].
  rewrite loop_unfold.
  destruct (Hen (page s)) as (sel & Hbtn & Hdis). rewrite Hbtn, Hdis.
  case_bool_decide as Hcap.
  { exists s. split; [done|]. lia. }
  assert (advance_next b hm s = advance b hm sel s) as Hadv.
  { unfold advance_next. by rewrite Hbtn. }
  pose proof (Hnot 1 ltac:(lia) ltac:(lia)) as H1.
  change (Nat.iter 1 (advance_next b hm) s) with (advance_next b hm s) in H1.
  rewrite Hadv in H1. rewrite H1.
  destruct (IH (k + 1) (advance b hm sel s)) as (s' & Hs' & Hclicks);
    [lia|lia|done| |].
  { intros n Hn Hnk. rewrite <- Hadv, <- Nat.iter_succ_r. apply Hnot; lia. }
  exists s'. split; [done|]. rewrite Hclicks, advance_clicks. lia.
Qed.

(** Once the set holds [total] keys (and [total] is not zero), a turn of
    the loop is the last one. *)
Lemma loop_exit_after_advance fuel sel k (s : Session b) :
  1 ≤ total → k < 100 →
  _is_disabled (dom_of b (page s)) (Some sel) = false →
  total ≤ size (seen_products (advance b hm sel s)) →
  loop (S fuel) hm total (Some sel) k s = Some (advance b hm sel s).
Proof.
  intros Ht Hk Hdis Hsize. rewrite loop_unfold, Hdis.
  rewrite bool_decide_eq_false_2 by lia.
  unfold total_reached. rewrite bool_decide_eq_true_2 by done.
  by destruct total; [lia|].
Qed.

Lemma loop_at_most_one_click fuel btn k (s s' : Session b) :
  1 ≤ total → total ≤ size (seen_products s) →
  loop fuel hm total btn k s = Some s' →
  next_clicks (trace s') ≤ next_clicks (trace s) + 1 ∧
  (k < 100 → (∃ sel, btn = Some sel ∧
                     _is_disabled (dom_of b (page s)) (Some sel) = false) →
   next_clicks (trace s') = next_clicks (trace s) + 1).
Proof.
  intros Ht Hsize. destruct fuel as [|fuel]; [done|].
  rewrite loop_unfold. destruct btn as [sel|].
  2:{ intros [= <-]. split; [lia|]. by intros _ (? & ? & _). }
  destruct (_is_disabled _ _) eqn:Hdis.
  { intros [= <-]. split; [lia|]. intros _ (? & [= <-] & Hd). congruence. }
  case_bool_decide as Hcap.
  { intros [= <-]. split; lia. }
  assert (total_reached b total (advance b hm sel s) = true) as ->.
  { unfold total_reached. destruct (steps_keep b hm _ _ (advance_steps b hm sel s)) as (Hsub & _).
    apply subseteq_size in Hsub.
    rewrite bool_decide_eq_true_2 by lia. by destruct total; [lia|]. }
  intros [= <-]. rewrite advance_clicks. split; [lia|done].
Qed.

End LoopFacts.

(** ** The two outputs *)

Lemma writerow_row (r : Row) :
  DictWriter_writerow output_fields (strs (to_dict r)) = Some (map snd (to_dict r)).
Proof. destruct r. reflexivity. Qed.

Lemma writerows_rows (rows : list Row) :
  DictWriter_writerows output_fields (map (fun r => strs (to_dict r)) rows) =
  Some (map (fun r => map snd (to_dict r)) rows).
Proof.
  induction rows as [|r rows IH]; [done|].
  cbn [map DictWriter_writerows]. by rewrite writerow_row, IH.
Qed.

Lemma json_dumps_strs d : json_dumps (strs d) = json_strings d.
Proof. unfold json_dumps, strs, json_strings. rewrite map_map. reflexivity. Qed.

Lemma write_outputs_unfold (rows : list Row) (fs : Files) :
  write_outputs rows fs =
    Returned (length rows)
      {| csv_file := Some (output_fields :: map (fun r => map snd (to_dict r)) rows);
         jsonl_file := Some (map (fun r => json_strings (to_dict r)) rows) |}.
Proof.
  unfold write_outputs. change (map fst (to_dict Row_default)) with output_fields.
  rewrite writerows_rows. reflexivity.
Qed.

Lemma to_dict_zip (r : Row) : zip output_fields (map snd (to_dict r)) = to_dict r.
Proof. reflexivity. Qed.

(** C9. For any accumulated records the CSV file is the header row of the
    eleven field names followed by one row per record, the JSONL file has
    one object per record, both in the order of the records; the CSV row of
    a record paired with the header, and the JSON object of the record, are
    the same dictionary [to_dict] of the record: the same keys in the same
    order, each with the same string as its value. *)
Theorem outputs_agree (rows : list Row) (fs : Files) :
  ∃ lines objs,
    write_outputs rows fs =
      Returned (length rows)
        {| csv_file := Some (output_fields :: lines); jsonl_file := Some objs |}
    ∧ length lines = length rows
    ∧ length objs = length rows
    ∧ ∀ i r, rows !! i = Some r →
        ∃ line obj,
          lines !! i = Some line ∧ objs !! i = Some obj ∧
          zip output_fields line = to_dict r ∧
          obj = json_strings (to_dict r) ∧
          obj = json_strings (zip output_fields line).
Proof.
  exists (map (fun r => map snd (to_dict r)) rows),
         (map (fun r => json_strings (to_dict r)) rows).
  split; [apply write_outputs_unfold|].
  split; [by rewrite length_map|]. split; [by rewrite length_map|].
  intros i r Hr. exists (map snd (to_dict r)), (json_strings (to_dict r)).
  rewrite !list_lookup_fmap, Hr. by rewrite to_dict_zip.
Qed.

(** In the outputs of [run_niap.py] every record has the eleven keys and
    every value is a string: no key is left out, no value is [null]. *)
Lemma row_outputs_all_strings (rows : list Row) (fs : Files) :
  ∃ lines objs,
    write_outputs rows fs =
      Returned (length rows)
        {| csv_file := Some (output_fields :: lines); jsonl_file := Some objs |}
    ∧ Forall (λ line, length line = length output_fields) lines
    ∧ Forall (λ obj, map fst obj = output_fields ∧
                     Forall (λ kv, ∃ s, kv.2 = JString s) obj) objs.
Proof.
  eexists _, _. split; [apply write_outputs_unfold|]. split.
  - apply Forall_fmap, Forall_true. by intros [].
  - apply Forall_fmap, Forall_true. intros r. split; [by destruct r|].
    unfold json_strings. apply Forall_fmap, Forall_true. intros kv. by eexists.
Qed.

(** C6 (the grid scraper does what the claim says, the card scraper does
    not). In [niap_scraper.py] a field that the card does not give stays
    [None]: the CSV row has the empty string for it and the JSON object has
    [null].  Here for a card on which only the vendor is given. *)
Theorem legacy_record_null_in_jsonl :
  Legacy.write_outputs [Legacy.record_of_card Ex.card_vendor_only] no_files =
    Returned 1
      {| csv_file := Some [ output_fields;
                            [""; "Acme"; ""; ""; ""; ""; ""; ""; ""; ""; ""] ];
         jsonl_file := Some [ [ ("vid", JNull); ("vendor", JString "Acme");
                                ("product", JNull); ("cctl", JNull);
                                ("certification_date", JNull); ("status", JNull);
                                ("conformance_claims", JNull);
                                ("assurance_maintenance_date", JNull);
                                ("maintenance_update", JNull); ("scheme", JNull);
                                ("product_url", JNull) ] ] |}.
Proof. vm_compute. reflexivity. Qed.

(** ** Header resolution *)

(** C1 (the alias table of [run_niap.py] holds the canonical names only).
    The header row [VID, Vendor, Product Name, CCTL, Country] resolves to
    columns 0, 1 and 3: [to_canonical] knows neither [Product Name] nor
    [Country], which [normalize_label] of [utils.py] maps to [Product] and
    [Scheme]. *)
Theorem five_headers_resolve_three :
  _find_grid Ex.page_five_headers = Some "div[role='grid']"
  ∧ _get_headers Ex.page_five_headers "div[role='grid']" =
      {[ 0 := "VID"; 1 := "Vendor"; 3 := "CCTL" ]}
  ∧ to_canonical "Product Name" = None
  ∧ to_canonical "Country" = None
  ∧ normalize_label "Product Name" = "Product"
  ∧ normalize_label "Country" = "Scheme".
Proof. repeat split; by vm_compute. Qed.

(** The matching of [to_canonical] is on the normalised text, whatever the
    case, and on the whole of it. *)
Lemma to_canonical_examples :
  to_canonical "  certification   DATE " = Some "Certification Date"
  ∧ to_canonical "vId" = Some "VID"
  ∧ to_canonical "Product X" = None
  ∧ to_canonical "" = None.
Proof. repeat split; by vm_compute. Qed.

(** The caption of the pager: the number after [of], when it stands as a
    word of one to seven digits after a word [of]. *)
Lemma pager_caption_examples :
  search_of_total false "1–250 of 277" = Some "277"
  ∧ total_in_texts ["1–50 of 50"] = Some 50
  ∧ total_in_texts ["Rows per page:"; " 1-10  of   0042 "] = Some 42
  ∧ search_of_total false "proof 12" = None
  ∧ search_of_total false "of 12345678" = None
  ∧ search_of_total false "of 12a, 3 of 4" = Some "4"
  ∧ search_of_total false "1 Of 5" = None.
Proof. repeat split; by vm_compute. Qed.

(** ** The run *)

Section RunFacts.

Context (b : Browser).

Lemma prepare_steps hm (w0 : world b) grid0 :
  rtc (driver_step b hm) (start_session b w0 grid0) (prepare b w0 grid0).
Proof. unfold prepare. etrans; [apply act_steps|apply scroll_steps]. Qed.

Lemma prepare_clicks (w0 : world b) grid0 :
  next_clicks (trace (prepare b w0 grid0)) = 0.
Proof. unfold prepare. by rewrite scroll_clicks, next_clicks_act. Qed.

(** [drive] when the grid and the headers are found: the first pass, the
    loop, the last pass. *)
Lemma drive_found (w0 : world b) grid0 :
  _find_grid (dom_of b w0) = Some grid0 →
  size (_get_headers (dom_of b w0) grid0) ≠ 0 →
  let hm := _get_headers (dom_of b w0) grid0 in
  let s0 := prepare b w0 grid0 in
  let s1 := collect_current b hm s0 in
  drive b w0 =
    match pagination_loop b loop_fuel hm (pager_total b s0)
            (_pager_next_btn (dom_of b (page s1))) 0 s1 with
    | Some s => Some (inr (collect_current b hm s))
    | None => None
    end.
Proof.
  intros Hgrid Hsize. unfold drive. rewrite Hgrid.
  by rewrite bool_decide_eq_false_2.
Qed.

Lemma drive_inr (w0 : world b) (s : Session b) :
  drive b w0 = Some (inr s) →
  ∃ grid0,
    _find_grid (dom_of b w0) = Some grid0 ∧
    size (_get_headers (dom_of b w0) grid0) ≠ 0 ∧
    ∃ s2,
      pagination_loop b loop_fuel (_get_headers (dom_of b w0) grid0)
        (pager_total b (prepare b w0 grid0))
        (_pager_next_btn (dom_of b (page
           (collect_current b (_get_headers (dom_of b w0) grid0) (prepare b w0 grid0)))))
        0 (collect_current b (_get_headers (dom_of b w0) grid0) (prepare b w0 grid0))
      = Some s2 ∧
      s = collect_current b (_get_headers (dom_of b w0) grid0) s2.
Proof.
  unfold drive. destruct (_find_grid (dom_of b w0)) as [grid0|]; [|done].
  case_bool_decide as Hsize; [done|].
  destruct (pagination_loop _ _ _ _ _ _ _) as [s2|] eqn:Hloop; [|done].
  intros [= <-]. exists grid0. split; [done|]. split; [done|]. by exists s2.
Qed.


End RunFacts.

(** C4. When the grid and headers are found, the next-page control is
    found and reports enabled on every page, and the total of the pager is
    not reached after any of the advances (in particular when no total is
    parsed), the driver clicks the control exactly 100 times, then ends:
    [run] returns the number of records. *)
Theorem safety_cap_exact (b : Browser) (w0 : world b) (grid0 : string) (fs : Files) :
  let hm := _get_headers (dom_of b w0) grid0 in
  let s0 := prepare b w0 grid0 in
  let s1 := collect_current b hm s0 in
  _find_grid (dom_of b w0) = Some grid0 →
  size hm ≠ 0 →
  (∀ w, next_enabled (dom_of b w)) →
  (∀ n, 1 ≤ n ≤ 100 →
        total_reached b (pager_total b s0) (Nat.iter n (advance_next b hm) s1) = false) →
  ∃ s fs',
    drive b w0 = Some (inr s) ∧
    next_clicks (trace s) = 100 ∧
    run b w0 fs = Some (Returned (length (all_rows s)) fs').
Proof.
  intros hm s0 s1 Hgrid Hsize Hen Hnot.
  destruct (loop_capped b hm (pager_total b s0) loop_fuel 0 s1) as (s' & Hloop & Hclicks);
    [unfold loop_fuel; lia|lia|done|intros n ? ?; apply Hnot; lia|].
  pose proof (drive_found b w0 grid0 Hgrid Hsize) as Hdrive. cbv zeta in Hdrive.
  fold hm s0 s1 in Hdrive. rewrite Hloop in Hdrive.
  exists (collect_current b hm s'). eexists. split; [done|]. split.
  - rewrite collect_clicks, Hclicks. unfold s1, s0.
    rewrite collect_clicks, prepare_clicks. lia.
  - unfold run. rewrite Hdrive. by rewrite write_outputs_unfold.
Qed.

(** A page that never changes, with one row, no caption of the pager and a
    next-page button that is always enabled: 100 clicks. *)
Lemma safety_cap_exact_witness :
  ∃ s fs',
    drive (Ex.still Ex.page_endless) tt = Some (inr s) ∧
    next_clicks (trace s) = 100 ∧
    run (Ex.still Ex.page_endless) tt no_files = Some (Returned (length (all_rows s)) fs').
Proof.
  apply (safety_cap_exact (Ex.still Ex.page_endless) tt "div[role='grid']" no_files).
  - by vm_compute.
  - by vm_compute.
  - intros []. exists "button[title='Next page']". by vm_compute.
  - intros n _. reflexivity.
Defined.

(** ** The total of the pager *)







(** ** The two fatal errors *)

(** C5. When no grid is found, or the header row resolves to no canonical
    field, [run] raises before it writes: the files are those that were there
    before the run, neither the CSV file nor the JSONL file is written. *)
Theorem fatal_before_output (b : Browser) (w0 : world b) (fs : Files) :
  _find_grid (dom_of b w0) = None
  ∨ (∃ grid0, _find_grid (dom_of b w0) = Some grid0
              ∧ _get_headers (dom_of b w0) grid0 = ∅) →
  ∃ exn, run b w0 fs = Some (Raised exn fs).
Proof.
  intros [Hnone|(grid0 & Hgrid & Hempty)]; unfold run, drive.
  - rewrite Hnone. by eexists.
  - rewrite Hgrid, Hempty. by eexists.
Qed.

(** A page with no grid, and a page on which no header resolves; files of
    an earlier run stay as they were, and with no file before there is none
    after. *)
Lemma fatal_before_output_witness :
  (∃ exn, run (Ex.still Ex.page_no_grid) tt Ex.old_files = Some (Raised exn Ex.old_files))
  ∧ (∃ exn, run (Ex.still Ex.page_no_headers) tt no_files = Some (Raised exn no_files)).
Proof.
  split.
  - apply (fatal_before_output (Ex.still Ex.page_no_grid) tt Ex.old_files).
    left. by vm_compute.
  - apply (fatal_before_output (Ex.still Ex.page_no_headers) tt no_files).
    right. exists "div[role='grid']". split; by vm_compute.
Defined.

(** ** Collecting twice *)

Lemma extract_rows_twice (p p' : Page) g g' hm seen :
  data_rows p' g' = data_rows p g →
  _extract_rows p' g' hm (_extract_rows p g hm seen).2 =
  ([], (_extract_rows p g hm seen).2).
Proof.
  intros Hsame. unfold _extract_rows. rewrite Hsame.
  destruct (rows_loop hm (data_rows p g) [] seen) as [batch seen'] eqn:E.
  apply rows_loop_grows in E as (_ & Hskip & _). simpl.
  by apply rows_loop_skipped.
Qed.

Lemma iter_frame {A B} (f : A → B) (g : A → A) n x :
  (∀ x, f (g x) = f x) → f (Nat.iter n g x) = f x.
Proof. intros Hg. induction n as [|n IH]; simpl; [done|]. by rewrite Hg. Qed.

Lemma scroll_frame (b : Browser) pause n (s : Session b) :
  seen_products (_scroll_grid_to_end b pause n s) = seen_products s
  ∧ all_rows (_scroll_grid_to_end b pause n s) = all_rows s
  ∧ grid (_scroll_grid_to_end b pause n s) = grid s.
Proof.
  unfold _scroll_grid_to_end.
  destruct (has_scroller _); (split; [|split]); by apply iter_frame.
Qed.

Lemma extract_current_fields (b : Browser) hm (s : Session b) :
  page (extract_current b hm s) = page s
  ∧ grid (extract_current b hm s) =
      from_option id (grid s) (_find_grid (dom_of b (page s)))
  ∧ all_rows (extract_current b hm s) =
      all_rows s ++
      (_extract_rows (dom_of b (page s))
         (from_option id (grid s) (_find_grid (dom_of b (page s)))) hm
         (seen_products s)).1
  ∧ seen_products (extract_current b hm s) =
      (_extract_rows (dom_of b (page s))
         (from_option id (grid s) (_find_grid (dom_of b (page s)))) hm
         (seen_products s)).2.
Proof. unfold extract_current. by destruct (_extract_rows _ _ _ _). Qed.

(** C8. A second collection pass over the same rendered rows, with the set
    and the list as the first pass left them, appends nothing: the
    accumulated records and the set stay as they are. *)
Theorem collect_twice_appends_nothing (b : Browser) (hm : gmap nat string)
    (s : Session b) :
  let s1 := collect_current b hm s in
  let s2 := collect_current b hm s1 in
  data_rows (dom_of b (page s2)) (grid s2) = data_rows (dom_of b (page s1)) (grid s1) →
  all_rows s2 = all_rows s1
  ∧ length (all_rows s2) = length (all_rows s1)
  ∧ seen_products s2 = seen_products s1.
Proof.
  intros s1 s2 Hsame.
  enough (all_rows s2 = all_rows s1 ∧ seen_products s2 = seen_products s1)
    as [Hr Hs] by (by rewrite Hr, Hs).
  revert Hsame. unfold s2, s1. rewrite !collect_current_unfold.
  set (u := _scroll_grid_to_end b 120 10 s).
  set (t := _scroll_grid_to_end b 120 10 (extract_current b hm u)).
  destruct (extract_current_fields b hm u) as (Hpu & Hgu & Hau & Hsu).
  destruct (extract_current_fields b hm t) as (Hpt & Hgt & Hat & Hst).
  destruct (scroll_frame b 120 10 (extract_current b hm u)) as (Hts & Hta & _).
  fold t in Hts, Hta.
  rewrite Hpt, Hgt, Hpu, Hgu. intros Hsame.
  rewrite Hat, Hst, Hts, Hta, Hsu.
  rewrite (extract_rows_twice _ _ _ _ hm (seen_products u) Hsame).
  simpl. by rewrite app_nil_r.
Qed.

(** The page that never changes: the second pass sees the rows of the
    first. *)
Lemma collect_twice_appends_nothing_witness :
  all_rows (collect_current (Ex.still Ex.page_endless) Ex.hm_endless
              (collect_current (Ex.still Ex.page_endless) Ex.hm_endless
                 (prepare (Ex.still Ex.page_endless) tt "div[role='grid']")))
  = all_rows (collect_current (Ex.still Ex.page_endless) Ex.hm_endless
                (prepare (Ex.still Ex.page_endless) tt "div[role='grid']"))
  ∧ length (all_rows (collect_current (Ex.still Ex.page_endless) Ex.hm_endless
              (collect_current (Ex.still Ex.page_endless) Ex.hm_endless
                 (prepare (Ex.still Ex.page_endless) tt "div[role='grid']"))))
  = length (all_rows (collect_current (Ex.still Ex.page_endless) Ex.hm_endless
                (prepare (Ex.still Ex.page_endless) tt "div[role='grid']")))
  ∧ seen_products (collect_current (Ex.still Ex.page_endless) Ex.hm_endless
              (collect_current (Ex.still Ex.page_endless) Ex.hm_endless
                 (prepare (Ex.still Ex.page_endless) tt "div[role='grid']")))
  = seen_products (collect_current (Ex.still Ex.page_endless) Ex.hm_endless
                (prepare (Ex.still Ex.page_endless) tt "div[role='grid']")).
Proof.
  apply (collect_twice_appends_nothing (Ex.still Ex.page_endless) Ex.hm_endless
           (prepare (Ex.still Ex.page_endless) tt "div[role='grid']")).
  by vm_compute.
Defined.

(** ** The set and the records *)

(** C10. A run that returns [n] has gone, by steps of the driver (an action
    on the browser or an extraction), from the empty list and the empty set
    to a last session; at every step on the way the set of keys has grown or
    stayed (no key is ever removed) and, before and after the step, there
    are as many accumulated records as keys; [n] is the number of records
    and the number of keys of the last session. *)
Theorem dedup_set_counts_records (b : Browser) (w0 : world b) (fs fs' : Files) (n : nat) :
  run b w0 fs = Some (Returned n fs') →
  ∃ grid0 s,
    _find_grid (dom_of b w0) = Some grid0
    ∧ drive b w0 = Some (inr s)
    ∧ rtc (driver_step b (_get_headers (dom_of b w0) grid0)) (start_session b w0 grid0) s
    ∧ (∀ s1 s2,
         rtc (driver_step b (_get_headers (dom_of b w0) grid0)) (start_session b w0 grid0) s1 →
         driver_step b (_get_headers (dom_of b w0) grid0) s1 s2 →
         seen_products s1 ⊆ seen_products s2 ∧ counted s1 ∧ counted s2)
    ∧ n = length (all_rows s)
    ∧ n = size (seen_products s).
Proof.
  unfold run. destruct (drive b w0) as [[exn|s]|] eqn:Hdrive; [done| |done].
  rewrite write_outputs_unfold. intros [= <- _].
  destruct (drive_inr b w0 s Hdrive) as (grid0 & Hgrid & Hsize & s2 & Hloop & ->).
  set (hm := _get_headers (dom_of b w0) grid0) in *.
  set (init := start_session b w0 grid0).
  assert (counted init) as Hinit by done.
  assert (rtc (driver_step b hm) init (collect_current b hm s2)) as Hpath.
  { etrans; [apply prepare_steps|]. etrans; [apply collect_steps|].
    destruct (loop_returns b hm (pager_total b (prepare b w0 grid0)) loop_fuel
                (_pager_next_btn (dom_of b (page (collect_current b hm (prepare b w0 grid0)))))
                0 (collect_current b hm (prepare b w0 grid0)))
      as (s2' & Hloop' & Hsteps); [unfold loop_fuel; lia|lia|].
    rewrite Hloop in Hloop'. injection Hloop' as <-.
    etrans; [exact Hsteps|apply collect_steps]. }
  exists grid0, (collect_current b hm s2).
  split; [done|]. split; [done|]. split; [done|]. split; [|split; [done|]].
  - intros s1 s3 Hreach Hstep.
    destruct (steps_keep b hm _ _ Hreach) as (_ & Hc1 & _).
    destruct (step_keeps b hm _ _ Hstep) as (Hsub & Hc2 & _).
    auto.
  - destruct (steps_keep b hm _ _ Hpath) as (_ & Hc & _). by apply Hc.
Qed.

(** The run over the page that never changes returns 1 and writes one
    record; its set holds one key. *)
Lemma dedup_set_counts_records_witness :
  ∃ grid0 s,
    _find_grid (dom_of (Ex.still Ex.page_endless) tt) = Some grid0
    ∧ drive (Ex.still Ex.page_endless) tt = Some (inr s)
    ∧ rtc (driver_step (Ex.still Ex.page_endless)
             (_get_headers (dom_of (Ex.still Ex.page_endless) tt) grid0))
          (start_session (Ex.still Ex.page_endless) tt grid0) s
    ∧ (∀ s1 s2,
         rtc (driver_step (Ex.still Ex.page_endless)
                (_get_headers (dom_of (Ex.still Ex.page_endless) tt) grid0))
             (start_session (Ex.still Ex.page_endless) tt grid0) s1 →
         driver_step (Ex.still Ex.page_endless)
           (_get_headers (dom_of (Ex.still Ex.page_endless) tt) grid0) s1 s2 →
         seen_products s1 ⊆ seen_products s2 ∧ counted s1 ∧ counted s2)
    ∧ 1 = length (all_rows s)
    ∧ 1 = size (seen_products s).
Proof.
  apply (dedup_set_counts_records (Ex.still Ex.page_endless) tt no_files
           Ex.files_endless 1).
  by vm_compute.
Defined.

(** * Further properties *)

#[local] Set Warnings "-clear-no-such-hyp".

(** ** The bound on the clicks *)



(** ** Normalised text *)

Lemma split_go_word w : ∀ cur t,
  no_space w = true → Py.split_go cur (w +:+ t) = Py.split_go (cur +:+ w) t.
Proof.
  induction w as [|a w IH]; intros cur t Hw.
  - by rewrite app_empty_l, app_empty_r.
  - simpl in Hw. apply andb_true_iff in Hw as [Ha Hw]. apply negb_true_iff in Ha.
    rewrite app_cons. simpl. rewrite Ha. rewrite IH by done.
    by rewrite app_assoc_str.
Qed.

Lemma split_go_space cur t :
  Py.split_go cur (String " " t) =
    if Py.is_empty cur then Py.split_go EmptyString t
    else cur :: Py.split_go EmptyString t.
Proof. reflexivity. Qed.

Lemma split_go_end cur :
  Py.split_go cur EmptyString = if Py.is_empty cur then [] else [cur].
Proof. reflexivity. Qed.

Lemma split_join ws : Forall is_word ws → Py.split (Py.join " " ws) = ws.
Proof.
  unfold Py.split, Py.join. induction 1 as [|w ws [Hne Hns] Hws IH]; [done|].
  assert (Py.is_empty w = false) as Hw by (by destruct w).
  destruct ws as [|v ws].
  - change (String.concat " " [w]) with w.
    rewrite <- (app_empty_r w) at 1. rewrite split_go_word by done.
    by rewrite app_empty_l, split_go_end, Hw.
  - rewrite concat_cons, split_go_word, app_empty_l by done.
    rewrite app_cons, app_empty_l, split_go_space, Hw. by rewrite IH.
Qed.

(** X2. [norm] is idempotent; the words of its result are the words of the
    text, and [strip] finds nothing to remove at either end of it. *)
Theorem norm_idempotent (s : string) :
  norm (norm s) = norm s
  ∧ Py.split (norm s) = Py.split s
  ∧ Py.strip (norm s) = norm s.
Proof.
  assert (Py.split (norm s) = Py.split s) as Hsplit.
  { rewrite norm_join. apply split_join, split_words. }
  split; [|split; [done|apply strip_norm]].
  by rewrite (norm_join (norm s)), Hsplit, <- norm_join.
Qed.

(** *** Lower case and [norm] commute *)

Lemma lower_char_idem a : Py.lower_char (Py.lower_char a) = Py.lower_char a.
Proof. destruct a as [[] [] [] [] [] [] [] []]; reflexivity. Qed.

Lemma lower_idem s : Py.lower (Py.lower s) = Py.lower s.
Proof. induction s as [|a s IH]; simpl; [done|]. by rewrite lower_char_idem, IH. Qed.

Lemma lower_app s t : Py.lower (s +:+ t) = Py.lower s +:+ Py.lower t.
Proof. induction s as [|a s IH]; [done|]. rewrite !app_cons. simpl. by rewrite IH, app_cons. Qed.

Lemma split_go_lower s : ∀ cur,
  Py.split_go (Py.lower cur) (Py.lower s) = map Py.lower (Py.split_go cur s).
Proof.
  induction s as [|a s IH]; intros cur; simpl.
  - rewrite is_empty_lower. by destruct (Py.is_empty cur).
  - rewrite isspace_lower_char, is_empty_lower.
    destruct (Py.isspace a).
    + destruct (Py.is_empty cur); simpl; [apply (IH EmptyString)|].
      f_equal. apply (IH EmptyString).
    + rewrite <- IH. by rewrite lower_app.
Qed.

Lemma join_lower sep ws :
  Py.join (Py.lower sep) (map Py.lower ws) = Py.lower (Py.join sep ws).
Proof.
  unfold Py.join. induction ws as [|w ws IH]; [done|].
  destruct ws as [|v ws]; [done|].
  change (map Py.lower (w :: v :: ws)) with (Py.lower w :: Py.lower v :: map Py.lower ws).
  rewrite !concat_cons, !lower_app. do 2 f_equal. exact IH.
Qed.

Lemma norm_lower s : norm (Py.lower s) = Py.lower (norm s).
Proof.
  rewrite !norm_join. unfold Py.split.
  pose proof (split_go_lower s EmptyString) as H.
  change (Py.lower EmptyString) with EmptyString in H.
  rewrite H. apply (join_lower " ").
Qed.

(** ** Header resolution *)

Lemma canonical_nonempty c : c ∈ REQUIRED_HEADERS → Py.is_empty c = false.
Proof.
  unfold REQUIRED_HEADERS. rewrite !elem_of_cons, elem_of_nil.
  intros H. repeat (destruct H as [->|H]; [done|]). done.
Qed.

Lemma aliases_lookup h c :
  ALIASES !! h = Some c ↔ c ∈ REQUIRED_HEADERS ∧ h = Py.lower c.
Proof.
  split.
  - intros H. apply elem_of_list_to_map_2 in H.
    rewrite !elem_of_cons, elem_of_nil in H.
    repeat (destruct H as [[= -> ->]|H];
      [split; [|done]; by apply (bool_decide_unpack _); vm_compute|]). done.
  - intros [Hc ->]. unfold REQUIRED_HEADERS in Hc.
    rewrite !elem_of_cons, elem_of_nil in Hc.
    repeat (destruct Hc as [->|Hc]; [by vm_compute|]). done.
Qed.

(** X3. A header text resolves to the canonical name [c] exactly when [c]
    is one of the ten canonical names and the text, normalised and in lower
    case, is [c] in lower case: the whole text, whatever its case and its
    spacing.  So the result is the same for the text in lower case and for
    the normalised text. *)
Theorem to_canonical_exact (s c : string) :
  (to_canonical s = Some c ↔
     c ∈ REQUIRED_HEADERS ∧ Py.lower (norm s) = Py.lower c)
  ∧ to_canonical (Py.lower s) = to_canonical s
  ∧ to_canonical (norm s) = to_canonical s.
Proof.
  split; [apply aliases_lookup|]. unfold to_canonical. split.
  - by rewrite norm_lower, lower_idem.
  - by destruct (norm_idempotent s) as (-> & _).
Qed.

Lemma to_canonical_truthy s c : to_canonical s = Some c → truthy (Some c) = true.
Proof.
  intros H. apply aliases_lookup in H as [Hc _]. simpl.
  by rewrite (canonical_nonempty c Hc).
Qed.

Lemma headers_loop_lookup texts : ∀ i m j,
  headers_loop i texts m !! j =
    match (if decide (i ≤ j) then texts !! (j - i) ≫= to_canonical else None) with
    | Some c => Some c
    | None => m !! j
    end.
Proof.
  induction texts as [|t texts IH]; intros i m j.
  { simpl. by destruct (decide (i ≤ j)). }
  cbn [headers_loop]. rewrite IH.
  destruct (to_canonical_exact t "") as (_ & _ & ->).
  destruct (decide (S i ≤ j)) as [Hlt|Hge].
  - rewrite decide_True by lia. replace (j - i) with (S (j - S i)) by lia. simpl.
    destruct (texts !! (j - S i) ≫= to_canonical); [done|].
    destruct (to_canonical t) as [c|] eqn:Ht; [|done].
    rewrite (to_canonical_truthy _ _ Ht). apply lookup_insert_ne. lia.
  - destruct (decide (i ≤ j)) as [Hle|Hlt].
    + assert (j = i) as -> by lia. rewrite Nat.sub_diag. simpl.
      destruct (to_canonical t) as [c|] eqn:Ht; [|done].
      rewrite (to_canonical_truthy _ _ Ht). apply lookup_insert_eq.
    + destruct (to_canonical t) as [c|] eqn:Ht; [|done].
      rewrite (to_canonical_truthy _ _ Ht). apply lookup_insert_ne. lia.
Qed.

(** X4. The header map holds at column [i] what [to_canonical] gives for
    the text of header cell [i], and nothing where it gives nothing: every
    key is the position of a header cell and every value is one of the ten
    canonical names. *)
Theorem header_map_lookup (p : Page) (grid : string) (i : nat) :
  _get_headers p grid !! i = header_texts p grid !! i ≫= to_canonical
  ∧ ∀ c, _get_headers p grid !! i = Some c →
         c ∈ REQUIRED_HEADERS ∧ i < length (header_texts p grid).
Proof.
  assert (_get_headers p grid !! i = header_texts p grid !! i ≫= to_canonical) as Hl.
  { unfold _get_headers. rewrite headers_loop_lookup.
    rewrite decide_True by lia. rewrite Nat.sub_0_r.
    by destruct (header_texts p grid !! i ≫= to_canonical). }
  split; [done|]. intros c Hc. rewrite Hl in Hc.
  destruct (header_texts p grid !! i) as [t|] eqn:Ht; [|done]. simpl in Hc.
  split; [by apply aliases_lookup in Hc as [? _]|by eapply lookup_lt_Some].
Qed.

(** ** The total of the pager caption *)










(** ** What a pass of extraction adds *)

Lemma key_of_make_row values url : key_of_row (make_row values url) = dedupe_key values url.
Proof. reflexivity. Qed.

Lemma key_of_row_record hm r : key_of_row (row_record hm r) = row_key hm r.
Proof. apply key_of_make_row. Qed.

Lemma rendered_keys_cons hm r els :
  rendered_keys hm (r :: els) =
    if has_cells r then {[row_key hm r]} ∪ rendered_keys hm els
    else rendered_keys hm els.
Proof. unfold rendered_keys. simpl. by destruct (has_cells r). Qed.

Lemma rows_loop_char hm els : ∀ rows seen,
  ∃ batch,
    rows_loop hm els rows seen = (rows ++ batch, seen ∪ rendered_keys hm els)
    ∧ NoDup (record_keys batch)
    ∧ (∀ k, k ∈ record_keys batch ↔ k ∈ rendered_keys hm els ∧ k ∉ seen)
    ∧ Forall (λ rec, ∃ r, r ∈ els ∧ has_cells r = true ∧ rec = row_record hm r) batch.
Proof.
  induction els as [|r els IH]; intros rows seen.
  { exists []. rewrite app_nil_r. unfold rendered_keys. simpl.
    split; [by rewrite (right_id_L ∅ (∪))|]. split; [constructor|].
    split; [|constructor]. intros k. rewrite elem_of_nil. set_solver. }
  cbn [rows_loop]. rewrite extract_row_unfold, rendered_keys_cons. unfold has_cells.
  case_bool_decide as Hc; simpl.
  { destruct (IH rows seen) as (batch & -> & Hnd & Hk & Hall).
    exists batch. split; [done|]. split; [done|]. split; [done|].
    eapply Forall_impl; [exact Hall|]. intros rec (r' & Hin & Hr').
    exists r'. split; [by right|done]. }
  case_bool_decide as Hk0.
  { destruct (IH rows seen) as (batch & -> & Hnd & Hk & Hall).
    exists batch. split; [f_equal; set_solver|]. split; [done|]. split.
    - intros k. rewrite Hk. set_solver.
    - eapply Forall_impl; [exact Hall|]. intros rec (r' & Hin & Hr').
      exists r'. split; [by right|done]. }
  destruct (IH (rows ++ [row_record hm r]) ({[row_key hm r]} ∪ seen))
    as (batch & -> & Hnd & Hk & Hall).
  exists (row_record hm r :: batch). rewrite <- app_assoc. simpl.
  split; [f_equal; set_solver|]. split; [|split].
  - unfold record_keys. simpl. constructor; [|done].
    rewrite key_of_row_record. intros Hin. apply Hk in Hin. set_solver.
  - intros k. unfold record_keys. simpl. rewrite elem_of_cons, key_of_row_record.
    fold (record_keys batch). rewrite Hk. split.
    + intros [->|[? ?]]; set_solver.
    + intros [Hin Hns]. destruct (decide (k = row_key hm r)); [by left|right]. set_solver.
  - constructor.
    + exists r. split; [left|]. split; [|done]. unfold has_cells.
      by rewrite bool_decide_eq_false_2.
    + eapply Forall_impl; [exact Hall|]. intros rec (r' & Hin & Hr').
      exists r'. split; [by right|done].
Qed.

(** X6. A pass of [_extract_rows] leaves in the set the keys it held
    together with the keys of all rendered rows that have a cell; the batch
    it returns has one record for each key that is new, no two records of the
    batch share a key, and every record of the batch is the record of a
    rendered row. *)
Theorem extract_rows_adds_new_keys (p : Page) (grid : string)
    (hm : gmap nat string) (seen : gset string) :
  let batch := (_extract_rows p grid hm seen).1 in
  let seen' := (_extract_rows p grid hm seen).2 in
  seen' = seen ∪ rendered_keys hm (data_rows p grid)
  ∧ NoDup (record_keys batch)
  ∧ list_to_set (record_keys batch) = seen' ∖ seen
  ∧ length batch = size (seen' ∖ seen)
  ∧ Forall (λ rec, ∃ r, r ∈ data_rows p grid ∧ has_cells r = true
                        ∧ rec = row_record hm r) batch.
Proof.
  unfold _extract_rows.
  destruct (rows_loop_char hm (data_rows p grid) [] seen) as (batch & -> & Hnd & Hk & Hall).
  simpl.
  assert (list_to_set (record_keys batch) =
          (seen ∪ rendered_keys hm (data_rows p grid)) ∖ seen :> gset string) as Hset.
  { apply set_eq. intros k. rewrite elem_of_list_to_set, Hk. set_solver. }
  split; [done|]. split; [done|]. split; [done|]. split; [|done].
  rewrite <- Hset, size_list_to_set by done. unfold record_keys. by rewrite length_map.
Qed.

Lemma extract_row_seen_bound hm r rows seen :
  (extract_row hm r rows seen).2 ⊆
    (if has_cells r then {[row_key hm r]} ∪ seen else seen).
Proof.
  rewrite extract_row_unfold. unfold has_cells.
  case_bool_decide; simpl; [done|]. case_bool_decide; simpl; set_solver.
Qed.

Lemma rows_loop_keeps_rows hm els rows seen rec :
  rec ∈ rows → rec ∈ (rows_loop hm els rows seen).1.
Proof.
  intros Hin. destruct (rows_loop_char hm els rows seen) as (batch & -> & _).
  simpl. apply elem_of_app. by left.
Qed.

Lemma rows_loop_first_wins hm pre : ∀ r post rows seen,
  has_cells r = true →
  row_key hm r ∉ seen →
  (∀ r', r' ∈ pre → has_cells r' = true → row_key hm r' ≠ row_key hm r) →
  row_record hm r ∈ (rows_loop hm (pre ++ r :: post) rows seen).1.
Proof.
  induction pre as [|r0 pre IH]; intros r post rows seen Hc Hk Hpre.
  - simpl. rewrite extract_row_kept; [|unfold has_cells in Hc; by case_bool_decide|done].
    apply rows_loop_keeps_rows, elem_of_app. right. by left.
  - simpl. destruct (extract_row hm r0 rows seen) as [rows1 seen1] eqn:E.
    apply IH; [done| |].
    + pose proof (extract_row_seen_bound hm r0 rows seen) as Hb. rewrite E in Hb.
      simpl in Hb. intros Hin. apply Hb in Hin.
      destruct (has_cells r0) eqn:Hc0; [|done].
      apply elem_of_union in Hin as [Hin%elem_of_singleton|Hin]; [|done].
      by eapply (Hpre r0); [left| |].
    + intros r' Hin. apply Hpre. by right.
Qed.

(** X7. Of the rendered rows that share a key, the first in the order of
    the page gives the record: a row that has a cell, whose key is not in the
    set and is the key of no row before it, has its record in the batch. *)
Theorem first_row_of_a_key_is_kept (p : Page) (grid : string) (hm : gmap nat string)
    (seen : gset string) (pre post : list RowEl) (r : RowEl) :
  data_rows p grid = pre ++ r :: post →
  has_cells r = true →
  row_key hm r ∉ seen →
  (∀ r', r' ∈ pre → has_cells r' = true → row_key hm r' ≠ row_key hm r) →
  row_record hm r ∈ (_extract_rows p grid hm seen).1.
Proof.
  intros Hrows Hc Hk Hpre. unfold _extract_rows. rewrite Hrows.
  by apply rows_loop_first_wins.
Qed.

(** The page with the rows [empty, Widget Pro, Gadget, WIDGET pro]: the
    record of [Gadget] is in the batch. *)
Lemma first_row_of_a_key_is_kept_witness :
  row_record Ex2.hm_pl Ex2.row_g ∈
    (_extract_rows Ex2.page_w "div[role='grid']" Ex2.hm_pl ∅).1.
Proof.
  apply (first_row_of_a_key_is_kept Ex2.page_w "div[role='grid']" Ex2.hm_pl ∅
           [Ex2.row_empty; Ex2.row_w1] [Ex2.row_w2] Ex2.row_g).
  - reflexivity.
  - reflexivity.
  - apply not_elem_of_empty.
  - intros r' Hin Hc. rewrite !elem_of_cons, elem_of_nil in Hin.
    destruct Hin as [->|[->|[]]]; [discriminate Hc|by vm_compute].
Defined.




(** ** The records of a run are told apart by their keys *)

Lemma extract_current_keyed (b : Browser) hm (s : Session b) :
  keyed s → keyed (extract_current b hm s).
Proof.
  intros [Hnd Hseen].
  destruct (extract_current_fields b hm s) as (_ & _ & Hrows & Hs).
  unfold _extract_rows in Hrows, Hs.
  destruct (rows_loop_char hm
              (data_rows (dom_of b (page s))
                 (from_option id (grid s) (_find_grid (dom_of b (page s)))))
              [] (seen_products s)) as (batch & E & Hndb & Hk & _).
  rewrite E in Hrows, Hs. simpl in Hrows, Hs.
  unfold keyed. rewrite Hrows, Hs. unfold record_keys in *. rewrite map_app. split.
  - apply NoDup_app. split; [done|]. split; [|done].
    intros k Hin Hinb. apply Hk in Hinb as [_ Hns]. apply Hns.
    rewrite Hseen. by apply elem_of_list_to_set.
  - rewrite list_to_set_app_L, <- Hseen. apply set_eq. intros k.
    rewrite !elem_of_union, elem_of_list_to_set, Hk.
    destruct (decide (k ∈ seen_products s)); set_solver.
Qed.

Lemma steps_keyed (b : Browser) hm (s s' : Session b) :
  rtc (driver_step b hm) s s' → keyed s → keyed s'.
Proof.
  induction 1 as [s|s s1 s' Hstep _ IH]; [done|].
  intros Hk. apply IH. destruct Hstep as [a s|s]; [done|].
  by apply extract_current_keyed.
Qed.

Lemma drive_path (b : Browser) (w0 : world b) (s : Session b) :
  drive b w0 = Some (inr s) →
  ∃ grid0, _find_grid (dom_of b w0) = Some grid0
           ∧ rtc (driver_step b (_get_headers (dom_of b w0) grid0))
                 (start_session b w0 grid0) s.
Proof.
  intros Hdrive.
  destruct (drive_inr b w0 s Hdrive) as (grid0 & Hgrid & Hsize & s2 & Hloop & ->).
  exists grid0. split; [done|].
  set (hm := _get_headers (dom_of b w0) grid0) in *.
  etrans; [apply prepare_steps|]. etrans; [apply collect_steps|].
  destruct (loop_returns b hm (pager_total b (prepare b w0 grid0)) loop_fuel
              (_pager_next_btn (dom_of b (page (collect_current b hm (prepare b w0 grid0)))))
              0 (collect_current b hm (prepare b w0 grid0)))
    as (s2' & Hloop' & Hsteps); [unfold loop_fuel; lia|lia|].
  rewrite Hloop in Hloop'. injection Hloop' as <-.
  etrans; [exact Hsteps|apply collect_steps].
Qed.

(** X10. The records that a run hands to the writers are told apart by
    their deduplication keys: no two of them have the same key, and the keys
    of the set at the end are exactly the keys of these records. *)
Theorem run_records_have_distinct_keys (b : Browser) (w0 : world b)
    (fs fs' : Files) (n : nat) :
  run b w0 fs = Some (Returned n fs') →
  ∃ s, drive b w0 = Some (inr s)
       ∧ n = length (all_rows s)
       ∧ NoDup (record_keys (all_rows s))
       ∧ seen_products s = list_to_set (record_keys (all_rows s)).
Proof.
  unfold run. destruct (drive b w0) as [[exn|s]|] eqn:Hdrive; [done| |done].
  rewrite write_outputs_unfold. intros [= <- _].
  exists s. split; [done|]. split; [done|].
  destruct (drive_path b w0 s Hdrive) as (grid0 & _ & Hpath).
  apply (steps_keyed b _ _ _ Hpath). split; [constructor|done].
Qed.

(** The run over the page that never changes. *)
Lemma run_records_have_distinct_keys_witness :
  ∃ s, drive (Ex.still Ex.page_endless) tt = Some (inr s)
       ∧ 1 = length (all_rows s)
       ∧ NoDup (record_keys (all_rows s))
       ∧ seen_products s = list_to_set (record_keys (all_rows s)).
Proof.
  apply (run_records_have_distinct_keys (Ex.still Ex.page_endless) tt no_files
           Ex.files_endless 1).
  by vm_compute.
Defined.

(** ** A control that is missing or disabled *)

(** X11. When, after the first collection pass, no next-page control is
    found, or the one found is not enabled or carries the class
    [Mui-disabled], the driver never clicks: the run is the first pass
    followed at once by the last pass. *)
Theorem disabled_control_is_not_clicked (b : Browser) (w0 : world b) (grid0 : string) :
  let hm := _get_headers (dom_of b w0) grid0 in
  let s1 := collect_current b hm (prepare b w0 grid0) in
  _find_grid (dom_of b w0) = Some grid0 →
  size hm ≠ 0 →
  (_pager_next_btn (dom_of b (page s1)) = None
   ∨ ∃ sel btn rest,
       _pager_next_btn (dom_of b (page s1)) = Some sel
       ∧ locate_button (dom_of b (page s1)) sel = btn :: rest
       ∧ (btn_enabled btn = false
          ∨ Py.contains "Mui-disabled" (Py.or_str (btn_class btn) "") = true)) →
  drive b w0 = Some (inr (collect_current b hm s1))
  ∧ next_clicks (trace (collect_current b hm s1)) = 0.
Proof.
  intros hm s1 Hgrid Hsize Hbtn.
  pose proof (drive_found b w0 grid0 Hgrid Hsize) as Hdrive. cbv zeta in Hdrive.
  fold hm s1 in Hdrive.
  assert (pagination_loop b loop_fuel hm (pager_total b (prepare b w0 grid0))
            (_pager_next_btn (dom_of b (page s1))) 0 s1 = Some s1) as Hloop.
  { unfold loop_fuel. rewrite loop_unfold.
    destruct Hbtn as [->|(sel & btn & rest & Hsel & Hloc & Hdis)]; [done|].
    rewrite Hsel. unfold _is_disabled. rewrite Hloc. simpl.
    destruct Hdis as [->| ->]; [done|]. by rewrite orb_true_r. }
  rewrite Hloop in Hdrive. split; [done|].
  unfold s1. by rewrite !collect_clicks, prepare_clicks.
Qed.

(** A button that is enabled but has the class [Mui-disabled]. *)
Lemma disabled_control_is_not_clicked_witness :
  drive (Ex.still Ex3.page_last) tt =
    Some (inr (collect_current (Ex.still Ex3.page_last)
                 (_get_headers Ex3.page_last "div[role='grid']")
                 (collect_current (Ex.still Ex3.page_last)
                    (_get_headers Ex3.page_last "div[role='grid']")
                    (prepare (Ex.still Ex3.page_last) tt "div[role='grid']"))))
  ∧ next_clicks (trace (collect_current (Ex.still Ex3.page_last)
                 (_get_headers Ex3.page_last "div[role='grid']")
                 (collect_current (Ex.still Ex3.page_last)
                    (_get_headers Ex3.page_last "div[role='grid']")
                    (prepare (Ex.still Ex3.page_last) tt "div[role='grid']")))) = 0.
Proof.
  apply (disabled_control_is_not_clicked (Ex.still Ex3.page_last) tt "div[role='grid']").
  - by vm_compute.
  - by vm_compute.
  - right. exists "button[title='Next page']", Ex3.greyed_button, [].
    split; [by vm_compute|]. split; [by vm_compute|]. right. by vm_compute.
Defined.

(** ** The label table of [utils.py] *)

Lemma lstrip_head s :
  match Py.lstrip s with
  | EmptyString => True
  | String a _ => Py.isspace a = false
  end.
Proof.
  induction s as [|a s IH]; simpl; [done|].
  destruct (Py.isspace a) eqn:Ha; [done|]. simpl. done.
Qed.

Lemma lstrip_fixed t :
  match t with EmptyString => True | String a _ => Py.isspace a = false end →
  Py.lstrip t = t.
Proof. destruct t as [|a t]; simpl; [done|]. by intros ->. Qed.

Lemma rstrip_head t :
  match t with EmptyString => True | String a _ => Py.isspace a = false end →
  match Py.rstrip t with
  | EmptyString => True
  | String a _ => Py.isspace a = false
  end.
Proof.
  destruct t as [|a t]; simpl; [done|]. intros Ha. rewrite Ha, andb_false_r. done.
Qed.

Lemma rstrip_idem t : Py.rstrip (Py.rstrip t) = Py.rstrip t.
Proof.
  induction t as [|a t IH]; simpl; [done|].
  destruct (Py.is_empty (Py.rstrip t) && Py.isspace a) eqn:E; simpl; [done|].
  by rewrite IH, E.
Qed.

Lemma strip_idem s : Py.strip (Py.strip s) = Py.strip s.
Proof.
  unfold Py.strip.
  rewrite (lstrip_fixed (Py.rstrip (Py.lstrip s))).
  - apply rstrip_idem.
  - apply rstrip_head, lstrip_head.
Qed.

Lemma normalize_label_go_find label table :
  normalize_label_go label table =
  from_option id label (find_canonical (Py.lower label) table).
Proof.
  induction table as [|[c aliases] table IH]; simpl; [done|].
  by destruct (existsb _ aliases).
Qed.

Lemma find_canonical_elem h table c :
  find_canonical h table = Some c → c ∈ map fst table.
Proof.
  induction table as [|[c' aliases] table IH]; simpl; [done|].
  destruct (existsb _ aliases).
  - intros [= ->]. by left.
  - intros H. right. by apply IH.
Qed.

Lemma find_canonical_alias c aliases a :
  (c, aliases) ∈ FIELD_ALIASES → a ∈ aliases →
  find_canonical (Py.lower a) FIELD_ALIASES = Some c.
Proof.
  unfold FIELD_ALIASES. rewrite !elem_of_cons, elem_of_nil. intros H Ha.
  repeat (destruct H as [[= -> ->]|H];
    [rewrite !elem_of_cons, elem_of_nil in Ha;
     repeat (destruct Ha as [->|Ha]; [by vm_compute|]); done|]).
  done.
Qed.

Lemma normalize_label_canonical c : c ∈ CANON_FIELDS → normalize_label c = c.
Proof.
  unfold CANON_FIELDS. rewrite !elem_of_cons, elem_of_nil. intros H.
  repeat (destruct H as [->|H]; [by vm_compute|]). done.
Qed.

(** X12. [normalize_label] gives the canonical name for every alias of the
    table, whatever the case of the label and the white space around it; it
    gives a canonical name, or else the stripped label as it is; and it is
    idempotent. *)
Theorem normalize_label_resolves_aliases :
  (∀ c aliases a label,
     (c, aliases) ∈ FIELD_ALIASES → a ∈ aliases →
     Py.lower (Py.strip label) = Py.lower a →
     normalize_label label = c)
  ∧ (∀ label, normalize_label label ∈ CANON_FIELDS
              ∨ normalize_label label = Py.strip label)
  ∧ (∀ label, normalize_label (normalize_label label) = normalize_label label).
Proof.
  assert (∀ label, normalize_label label ∈ CANON_FIELDS
                   ∨ normalize_label label = Py.strip label) as Hcases.
  { intros label. unfold normalize_label. rewrite normalize_label_go_find.
    destruct (find_canonical _ _) as [c|] eqn:E; [left|by right].
    apply find_canonical_elem in E. exact E. }
  split; [|split; [done|]].
  - intros c aliases a label Hc Ha Hl. unfold normalize_label.
    rewrite normalize_label_go_find, Hl.
    by rewrite (find_canonical_alias c aliases a Hc Ha).
  - intros label. destruct (Hcases label) as [Hc|Hs].
    + by apply normalize_label_canonical.
    + rewrite Hs. unfold normalize_label. rewrite strip_idem.
      unfold normalize_label in Hs. by rewrite Hs.
Qed.

(** ** The two normalisers agree *)

Lemma rstrip_app_empty s t :
  Py.rstrip t = EmptyString → Py.rstrip (s +:+ t) = Py.rstrip s.
Proof.
  intros Ht. induction s as [|a s IH]; [by rewrite app_empty_l|].
  rewrite app_cons. simpl. by rewrite IH.
Qed.

Lemma sub_ws_true_head t :
  match sub_ws_go true t with
  | EmptyString => True
  | String a _ => Py.isspace a = false
  end.
Proof.
  induction t as [|a t IH]; simpl; [done|].
  destruct (Py.isspace a) eqn:Ha; [done|]. done.
Qed.

Lemma lstrip_sub_ws s : Py.lstrip (sub_ws_go false s) = sub_ws_go true s.
Proof.
  destruct s as [|a s]; simpl; [done|].
  destruct (Py.isspace a) eqn:Ha; simpl.
  - apply lstrip_fixed, sub_ws_true_head.
  - by rewrite Ha.
Qed.

Lemma is_empty_app_l cur t : Py.is_empty cur = false → Py.is_empty (cur +:+ t) = false.
Proof. by destruct cur. Qed.

Lemma sub_ws_split s :
  (∀ cur, Py.is_empty cur = false → no_space cur = true →
          Py.rstrip (cur +:+ sub_ws_go false s) = Py.join " " (Py.split_go cur s))
  ∧ Py.rstrip (sub_ws_go true s) = Py.join " " (Py.split_go EmptyString s).
Proof.
  induction s as [|a s [IH1 IH2]].
  - split; [|done]. intros cur Hne Hns. simpl.
    rewrite app_empty_r, Hne. unfold Py.join. simpl. by apply rstrip_no_space.
  - destruct (Py.isspace a) eqn:Ha.
    + split.
      * intros cur Hne Hns. simpl. rewrite Ha, Hne.
        pose proof (split_go_words s EmptyString eq_refl) as Hwords.
        destruct (Py.split_go EmptyString s) as [|v vs] eqn:Hrest.
        -- rewrite rstrip_app_empty; [by apply rstrip_no_space|].
           simpl. rewrite IH2. done.
        -- destruct (join_words_trimmed (v :: vs) Hwords) as (_ & _ & Hnz).
           specialize (Hnz ltac:(done)).
           assert (Py.rstrip (String " " (sub_ws_go true s)) =
                   String " " (Py.join " " (v :: vs))) as Hr.
           { assert (Py.is_empty (Py.join " " (v :: vs)) = false) as Hj
               by (by destruct (Py.join " " (v :: vs))).
             cbn [Py.rstrip]. by rewrite IH2, Hj. }
           rewrite rstrip_app by (by rewrite Hr). rewrite Hr.
           unfold Py.join. by rewrite concat_cons.
      * simpl. by rewrite Ha.
    + split.
      * intros cur Hne Hns. simpl. rewrite Ha.
        replace (cur +:+ String a (sub_ws_go false s))
          with ((cur +:+ String a EmptyString) +:+ sub_ws_go false s)
          by (by rewrite app_assoc_str).
        apply IH1; [by apply is_empty_app_l|].
        rewrite no_space_app, Hns. simpl. by rewrite Ha.
      * simpl. rewrite Ha.
        change (String a (sub_ws_go false s))
          with (String a EmptyString +:+ sub_ws_go false s).
        rewrite app_empty_l. apply IH1; [done|]. simpl. by rewrite Ha.
Qed.

(** X13. The two normalisers of the repository agree: [squash_ws] of
    [utils.py] (every run of white space replaced by one space, then
    stripped) and [norm] of [run_niap.py] (the words joined by one space)
    give the same text for every text. *)
Theorem squash_ws_is_norm (text : string) : squash_ws text = norm text.
Proof.
  unfold squash_ws, Py.strip. rewrite lstrip_sub_ws, norm_join.
  apply sub_ws_split.
Qed.

(** ** The fields of a product card *)

Lemma normalize_label_normalized l : Cards.normalized_key (normalize_label l).
Proof.
  unfold Cards.normalized_key, normalize_label. rewrite normalize_label_go_find.
  destruct (find_canonical (Py.lower (Py.strip l)) FIELD_ALIASES) as [c|] eqn:E; simpl.
  - left. by apply find_canonical_elem in E.
  - by right.
Qed.

Lemma squash_ws_normed t : norm (squash_ws t) = squash_ws t.
Proof. rewrite squash_ws_is_norm. by destruct (norm_idempotent t) as (-> & _). Qed.

Lemma dl_loop_ok dts : ∀ dds data,
  Cards.fields_ok data → Cards.fields_ok (Cards.dl_loop dts dds data).
Proof.
  induction dts as [|dt dts IH]; intros dds data Hd; [done|].
  destruct dds as [|dd dds]; [done|]. simpl. apply IH.
  apply map_Forall_insert_2; [|done].
  split; [apply normalize_label_normalized|apply squash_ws_normed].
Qed.

Lemma lines_loop_ok lines : ∀ data,
  Cards.fields_ok data → Cards.fields_ok (Cards.lines_loop lines data).
Proof.
  induction lines as [|line lines IH]; intros data Hd; [done|]. simpl.
  destruct (Cards.partition_colon line) as [[label value]|]; [|by apply IH].
  apply IH. destruct (negb _); [|done].
  destruct (data !! _); [done|].
  apply map_Forall_insert_2; [|done].
  split; [apply normalize_label_normalized|apply squash_ws_normed].
Qed.

Lemma extracted_fields_ok el : Cards.fields_ok (Cards._extract_fields_from_card el).
Proof.
  unfold Cards._extract_fields_from_card.
  destruct (_ && _); [apply dl_loop_ok|apply lines_loop_ok]; apply map_Forall_empty.
Qed.

Lemma lines_loop_keeps lines : ∀ data label v,
  data !! label = Some v → Cards.lines_loop lines data !! label = Some v.
Proof.
  induction lines as [|line lines IH]; intros data label v Hd; [done|]. simpl.
  destruct (Cards.partition_colon line) as [[l val]|]; [|by apply IH].
  apply IH. destruct (negb _); [|done].
  destruct (data !! normalize_label (squash_ws l)) eqn:E; [done|].
  rewrite lookup_insert_ne; [done|]. intros <-. congruence.
Qed.

Lemma lines_loop_first pre : ∀ data line post l val,
  Cards.partition_colon line = Some (l, val) →
  normalize_label (squash_ws l) ≠ "" →
  data !! normalize_label (squash_ws l) = None →
  (∀ line' l' v', line' ∈ pre → Cards.partition_colon line' = Some (l', v') →
                  normalize_label (squash_ws l') ≠ normalize_label (squash_ws l)) →
  Cards.lines_loop (pre ++ line :: post) data !! normalize_label (squash_ws l)
  = Some (squash_ws val).
Proof.
  induction pre as [|line0 pre IH]; intros data line post l val Hp Hne Hd Hpre.
  - simpl. rewrite Hp. apply lines_loop_keeps.
    destruct (normalize_label (squash_ws l)) eqn:E; [done|]. simpl.
    rewrite Hd. apply lookup_insert_eq.
  - simpl. destruct (Cards.partition_colon line0) as [[l0 v0]|] eqn:E0.
    + apply IH; [done|done| |].
      * destruct (negb _); [|done].
        destruct (data !! normalize_label (squash_ws l0)); [done|].
        rewrite lookup_insert_ne; [done|]. eapply Hpre; [left|done].
      * intros line' l' v' Hin. apply Hpre. by right.
    + apply IH; [done|done|done|]. intros line' l' v' Hin. apply Hpre. by right.
Qed.

(** X14. On a card read by its lines, the first line of a label gives the
    value: a line [label: value] whose label (normalised) is not empty and
    is the label of no line before it puts its normalised value under that
    label, and no later line changes it.  A line with no colon, or with an
    empty label, adds nothing. *)
Theorem card_lines_first_line_wins (el : Cards.CardEl)
    (pre post : list string) (line l val : string) :
  length (Cards.el_dts el) = 0 ∨ length (Cards.el_dds el) = 0
  ∨ length (Cards.el_dts el) ≠ length (Cards.el_dds el) →
  Cards.splitlines (Cards.el_inner_text el) = pre ++ line :: post →
  Cards.partition_colon line = Some (l, val) →
  normalize_label (squash_ws l) ≠ "" →
  (∀ line' l' v', line' ∈ pre → Cards.partition_colon line' = Some (l', v') →
                  normalize_label (squash_ws l') ≠ normalize_label (squash_ws l)) →
  Cards._extract_fields_from_card el !! normalize_label (squash_ws l)
  = Some (squash_ws val).
Proof.
  intros Hstrategy Hlines Hp Hne Hpre. unfold Cards._extract_fields_from_card.
  assert (bool_decide (length (Cards.el_dts el) ≠ 0)
          && bool_decide (length (Cards.el_dds el) ≠ 0)
          && bool_decide (length (Cards.el_dts el) = length (Cards.el_dds el)) = false)
    as ->.
  { destruct Hstrategy as [H|[H|H]].
    - by rewrite (bool_decide_eq_false_2 (length (Cards.el_dts el) ≠ 0)) by (by intros ?).
    - rewrite (bool_decide_eq_false_2 (length (Cards.el_dds el) ≠ 0)) by (by intros ?).
      by rewrite andb_false_r.
    - rewrite (bool_decide_eq_false_2 _ H). by rewrite andb_false_r. }
  rewrite Hlines. by apply lines_loop_first.
Qed.

(** The lines [VID: 10], [toe : Widget Pro], [Product: Other]: the product
    is [Widget Pro]. *)
Lemma card_lines_first_line_wins_witness :
  Cards._extract_fields_from_card Ex4.card_lines !! normalize_label (squash_ws "toe ")
  = Some (squash_ws "  Widget  Pro").
Proof.
  apply (card_lines_first_line_wins Ex4.card_lines
           ["VID: 10"] ["Product: Other"; ": x"; "Note: a:b"]
           "toe :  Widget  Pro" "toe " "  Widget  Pro").
  - by left.
  - by vm_compute.
  - by vm_compute.
  - by vm_compute.
  - intros line' l' v' Hin Hp. apply list_elem_of_singleton in Hin as ->.
    vm_compute in Hp. injection Hp as <- <-. by vm_compute.
Defined.

Lemma dl_loop_untouched dts : ∀ dds data label,
  (∀ dt, dt ∈ dts → normalize_label (squash_ws dt) ≠ label) →
  Cards.dl_loop dts dds data !! label = data !! label.
Proof.
  induction dts as [|dt dts IH]; intros dds data label Hno; [done|].
  destruct dds as [|dd dds]; [done|]. simpl. rewrite IH.
  - apply lookup_insert_ne. apply Hno. by left.
  - intros dt' Hin. apply Hno. by right.
Qed.

Lemma dl_loop_last dts : ∀ dds data j dt dd,
  dts !! j = Some dt → dds !! j = Some dd →
  (∀ k dt', j < k → dts !! k = Some dt' →
            normalize_label (squash_ws dt') ≠ normalize_label (squash_ws dt)) →
  Cards.dl_loop dts dds data !! normalize_label (squash_ws dt) = Some (squash_ws dd).
Proof.
  induction dts as [|dt0 dts IH]; intros dds data j dt dd Hdt Hdd Hlast; [done|].
  destruct dds as [|dd0 dds]; [done|].
  destruct j as [|j]; simpl in Hdt, Hdd.
  - injection Hdt as ->. injection Hdd as ->. simpl.
    rewrite dl_loop_untouched; [apply lookup_insert_eq|].
    intros dt' Hin. apply list_elem_of_lookup in Hin as [k Hk].
    apply (Hlast (S k)); [lia|done].
  - simpl. apply (IH dds _ j dt dd Hdt Hdd).
    intros k dt' Hk Hl. apply (Hlast (S k)); [lia|done].
Qed.

(** X15. On a card read by its definition list (as many [dt] as [dd], at
    least one), the last pair of a label gives the value: the value of a
    pair whose label (normalised) is the label of no later pair is the one
    stored. *)
Theorem card_pairs_last_pair_wins (el : Cards.CardEl) (j : nat) (dt dd : string) :
  length (Cards.el_dts el) = length (Cards.el_dds el) →
  Cards.el_dts el !! j = Some dt →
  Cards.el_dds el !! j = Some dd →
  (∀ k dt', j < k → Cards.el_dts el !! k = Some dt' →
            normalize_label (squash_ws dt') ≠ normalize_label (squash_ws dt)) →
  Cards._extract_fields_from_card el !! normalize_label (squash_ws dt)
  = Some (squash_ws dd).
Proof.
  intros Hlen Hdt Hdd Hlast. unfold Cards._extract_fields_from_card.
  pose proof (lookup_lt_Some _ _ _ Hdt) as H1.
  pose proof (lookup_lt_Some _ _ _ Hdd) as H2.
  rewrite !bool_decide_eq_true_2 by (done || lia). simpl.
  by eapply dl_loop_last.
Qed.

(** The pairs [Vendor: Acme] and [Manufacturer: Apex Ltd]: the vendor is
    [Apex Ltd]. *)
Lemma card_pairs_last_pair_wins_witness :
  Cards._extract_fields_from_card Ex4.card_dl !! normalize_label (squash_ws "Manufacturer")
  = Some (squash_ws " Apex  Ltd ").
Proof.
  apply (card_pairs_last_pair_wins Ex4.card_dl 1 "Manufacturer" " Apex  Ltd ").
  - reflexivity.
  - reflexivity.
  - reflexivity.
  - intros k dt' Hk Hl. destruct k as [|[|k]]; [lia|lia|done].
Defined.

(** ** From the fields of a card to its record *)

Lemma map_fields_other fields fs : ∀ rec name,
  name ∉ map Legacy.replace_spaces fs →
  Legacy.map_fields fields fs rec !! name = rec !! name.
Proof.
  induction fs as [|f fs IH]; intros rec name Hno; [done|]. simpl.
  rewrite IH.
  - destruct (truthy _); [|done]. unfold Legacy.setattr.
    apply lookup_insert_ne. intros <-. apply Hno. by left.
  - intros Hin. apply Hno. by right.
Qed.

Lemma map_fields_lookup fields fs : ∀ rec f,
  NoDup (map Legacy.replace_spaces fs) → f ∈ fs →
  Legacy.map_fields fields fs rec !! Legacy.replace_spaces f =
    if truthy (Cards.field_value fields f)
    then Some (Cards.field_value fields f)
    else rec !! Legacy.replace_spaces f.
Proof.
  unfold Cards.field_value.
  induction fs as [|f0 fs IH]; intros rec f Hnd Hin; [by apply elem_of_nil in Hin|].
  simpl in Hnd. apply NoDup_cons in Hnd as [Hf0 Hnd]. cbn [Legacy.map_fields].
  apply elem_of_cons in Hin as [->|Hin].
  - rewrite map_fields_other by done.
    destruct (truthy _); [|done].
    apply lookup_insert_eq.
  - rewrite IH by done.
    destruct (truthy _); [done|].
    destruct (truthy _); [|done].
    unfold Legacy.setattr. apply lookup_insert_ne. intros Heq. apply Hf0.
    rewrite Heq. apply list_elem_of_fmap. by exists f.
Qed.

Lemma alias_canonical_is_field f aliases a :
  (f, aliases) ∈ FIELD_ALIASES → a ∈ aliases → a ∈ CANON_FIELDS → a = f.
Proof.
  unfold FIELD_ALIASES. rewrite !elem_of_cons, elem_of_nil. intros H Ha.
  repeat (destruct H as [[= -> ->]|H];
    [rewrite !elem_of_cons, elem_of_nil in Ha;
     repeat (destruct Ha as [->|Ha];
       [first [by intros _
              |intros Hc; apply (bool_decide_pack _) in Hc; by vm_compute in Hc]|]);
     done|]).
  done.
Qed.

Lemma field_aliases_assoc f :
  f ∈ CANON_FIELDS →
  ∃ aliases, assoc f FIELD_ALIASES = Some aliases ∧ (f, aliases) ∈ FIELD_ALIASES.
Proof.
  unfold CANON_FIELDS. rewrite !elem_of_cons, elem_of_nil. intros H.
  repeat (destruct H as [->|H];
    [eexists; split; [by vm_compute|]; by apply (bool_decide_unpack _); vm_compute|]).
  done.
Qed.

Lemma first_alias_none fields aliases :
  (∀ a, a ∈ aliases → fields !! a = None) → Legacy.first_alias fields aliases = None.
Proof.
  induction aliases as [|a aliases IH]; intros Hno; [done|]. simpl.
  rewrite (Hno a) by (by left). apply IH. intros a' Hin. apply Hno. by right.
Qed.

(** On a dictionary with normalised keys the search through the aliases of
    a field finds nothing: the value of a field is the one under its
    canonical name. *)
Lemma field_value_canonical fields f :
  Cards.fields_ok fields → f ∈ CANON_FIELDS →
  Cards.field_value fields f = fields !! f.
Proof.
  intros Hok Hf. unfold Cards.field_value.
  destruct (fields !! f) as [v|] eqn:E; [done|].
  destruct (field_aliases_assoc f Hf) as (aliases & -> & Hin). simpl.
  apply first_alias_none. intros a Ha.
  destruct (fields !! a) as [v|] eqn:Ea; [|done]. exfalso.
  destruct (Hok a v Ea) as [[Hcanon|Hnone] _].
  - rewrite (alias_canonical_is_field f aliases a Hin Ha Hcanon) in Ea. congruence.
  - rewrite (find_canonical_alias f aliases a Hin Ha) in Hnone. done.
Qed.

Lemma canon_attribute f :
  f ∈ CANON_FIELDS →
  Legacy.replace_spaces f ≠ "Product_URL"
  ∧ Legacy.Record_default !! Legacy.replace_spaces f = Some None.
Proof.
  unfold CANON_FIELDS. rewrite !elem_of_cons, elem_of_nil. intros H.
  repeat (destruct H as [->|H]; [by vm_compute|]). done.
Qed.

Lemma canon_attributes_nodup : NoDup (map Legacy.replace_spaces CANON_FIELDS).
Proof. apply (bool_decide_unpack _). by vm_compute. Qed.

(** X16. The record of a card holds, for each of the ten canonical fields,
    the value that [_extract_fields_from_card] has put under the canonical
    name, when that value is not empty, and [None] otherwise: since every key
    of the dictionary is a normalised label, the search through the aliases
    of a field never finds a value.  The link of the record is the [href] of
    the first detail link of the card, if any. *)
Theorem card_record_reads_canonical_keys (el : Cards.CardEl) (f : string) :
  f ∈ CANON_FIELDS →
  Legacy.getattr (Legacy.record_of_card (Cards.read_card el)) (Legacy.replace_spaces f) =
    match Cards._extract_fields_from_card el !! f with
    | Some v => if Py.is_empty v then None else Some v
    | None => None
    end
  ∧ Legacy.getattr (Legacy.record_of_card (Cards.read_card el)) "Product_URL" =
    mjoin (head (Cards.el_links el)).
Proof.
  intros Hf. destruct (canon_attribute f Hf) as [Hne Hdef].
  unfold Legacy.record_of_card, Legacy.getattr, Cards.read_card.
  cbn [Legacy.card_fields Legacy.card_links].
  set (fields := Cards._extract_fields_from_card el).
  set (rec := Legacy.map_fields fields CANON_FIELDS Legacy.Record_default).
  assert (rec !! Legacy.replace_spaces f =
          Some (match fields !! f with
                | Some v => if Py.is_empty v then None else Some v
                | None => None
                end)) as Hfield.
  { unfold rec. rewrite map_fields_lookup by (apply canon_attributes_nodup || done).
    rewrite (field_value_canonical fields f (extracted_fields_ok el) Hf), Hdef.
    destruct (fields !! f) as [v|]; [|done]. cbn [truthy]. by destruct (Py.is_empty v). }
  assert (rec !! "Product_URL" = Some None) as Hurl.
  { unfold rec. rewrite map_fields_other; [done|].
    apply (bool_decide_unpack _). by vm_compute. }
  destruct (Cards.el_links el) as [|href links].
  - rewrite Hfield, Hurl. done.
  - unfold Legacy.setattr. rewrite lookup_insert_ne by done.
    rewrite Hfield, lookup_insert_eq. done.
Qed.

(** The card given by lines: its product is [Widget Pro] (found under
    [toe], stored under [Product]). *)
Lemma card_record_reads_canonical_keys_witness :
  Legacy.getattr (Legacy.record_of_card (Cards.read_card Ex4.card_lines))
    (Legacy.replace_spaces "Product") =
    match Cards._extract_fields_from_card Ex4.card_lines !! "Product" with
    | Some v => if Py.is_empty v then None else Some v
    | None => None
    end
  ∧ Legacy.getattr (Legacy.record_of_card (Cards.read_card Ex4.card_lines)) "Product_URL" =
    mjoin (head (Cards.el_links Ex4.card_lines)).
Proof.
  apply (card_record_reads_canonical_keys Ex4.card_lines "Product").
  apply (bool_decide_unpack _). by vm_compute.
Defined.

(** * The page-size menu *)





Lemma find_labelled_some cs : ∀ i t,
  PageSize.find_labelled i cs = Some t →
  ∃ j c, t = i + j ∧ cs !! j = Some c ∧ PageSize.labelled c = true ∧
    ∀ k c', k < j → cs !! k = Some c' → PageSize.labelled c' = false.
Proof.
induction cs as [|c cs IH]; intros i t H; [done|]. simpl in H.
destruct (PageSize.labelled c) eqn:E.
- injection H as <-. exists 0, c. repeat split; [lia|done|]. intros; lia.
- apply IH in H as (j & c1 & -> & Hj & Hc & Hlt).
  exists (S j), c1. repeat split; [lia|done|done|].
  intros [|k] c' Hk Hc'; simpl in Hc'; [by injection Hc' as <-|].
  apply (Hlt k); [lia|done].
Qed.

Lemma find_labelled_none cs : ∀ i,
  PageSize.find_labelled i cs = None →
  Forall (λ c, PageSize.labelled c = false) cs.
Proof.
induction cs as [|c cs IH]; intros i H; [constructor|]. simpl in H.
destruct (PageSize.labelled c) eqn:E; [done|]. constructor; eauto.
Qed.

Section MenuFacts.

Variable lim : option nat.



End MenuFacts.

Lemma or_str_lower o : Py.or_str (Py.lower <$> o) "" = Py.lower (Py.or_str o "").
Proof. by destruct o as [[|a s]|]. Qed.

(** X17: the combobox that [_set_page_size_to_max] opens is the first one
    whose two label attributes, joined by a space and in lower case,
    contain [rows per page]; when no combobox has it, it is the first
    combobox; there is no target only when the page has no combobox.  The
    case of the attributes does not matter. *)
Theorem page_size_target_first_labelled (combos : list PageSize.Combo) :
  match PageSize.choose_target combos with
  | Some t =>
      ∃ c, combos !! t = Some c ∧
        ((PageSize.labelled c = true ∧
          ∀ k c', k < t → combos !! k = Some c' → PageSize.labelled c' = false)
         ∨ (t = 0 ∧ Forall (λ c', PageSize.labelled c' = false) combos))
  | None => combos = []
  end ∧
  ∀ a l v,
    PageSize.labelled
      {| PageSize.aria_label := Py.lower <$> a;
         PageSize.aria_labelledby := Py.lower <$> l;
         PageSize.combo_visible := v |}
    = PageSize.labelled
      {| PageSize.aria_label := a; PageSize.aria_labelledby := l;
         PageSize.combo_visible := v |}.
Proof.
split.
- unfold PageSize.choose_target.
  destruct (PageSize.find_labelled 0 combos) as [t|] eqn:E.
  + apply find_labelled_some in E as (j & c & -> & Hj & Hc & Hlt).
    exists c. split; [done|]. left. split; [done|]. done.
  + apply find_labelled_none in E.
    destruct combos as [|c combos]; [done|]. simpl.
    exists c. split; [done|]. by right.
- intros a l v. unfold PageSize.labelled, PageSize.label_text. simpl.
  by rewrite !or_str_lower, !lower_app, !lower_idem.
Qed.





(** * The pagination of the card scraper *)

Lemma first_matching_some {A} (locate : string → list A) sels sel :
  first_matching locate sels = Some sel → sel ∈ sels ∧ 0 < length (locate sel).
Proof.
induction sels as [|x sels IH]; [done|]. simpl.
case_bool_decide as Hx.
- intros [= <-]. split; [by left|done].
- intros H. apply IH in H as [? ?]. split; [by right|done].
Qed.

Lemma no_colon_app s t : Site.no_colon (s +:+ t) = Site.no_colon s && Site.no_colon t.
Proof.
induction s as [|a s IH]; [done|]. rewrite app_cons. simpl. rewrite IH.
by rewrite andb_assoc.
Qed.

Ltac norm_app H := repeat (rewrite app_cons in H || rewrite app_empty_l in H).

(** The key of the loop guard splits in one way only: what follows its
    last two colons is the number. *)
Lemma key_digits_inj u1 : ∀ u2 d1 d2,
  Site.no_colon d1 = true → Site.no_colon d2 = true →
  (u1 +:+ "::") +:+ d1 = (u2 +:+ "::") +:+ d2 → u1 = u2 ∧ d1 = d2.
Proof.
induction u1 as [|a u1 IH]; intros u2 d1 d2 H1 H2 H.
- destruct u2 as [|a2 u2]; [by injection H|].
  norm_app H. injection H as <- H.
  destruct u2 as [|a3 u2].
  + norm_app H. injection H as ->. done.
  + norm_app H. injection H as <- ->.
    rewrite !no_colon_app in H1. simpl in H1.
    by rewrite andb_false_r in H1.
- destruct u2 as [|a2 u2].
  + norm_app H. injection H as -> H.
    destruct u1 as [|a3 u1].
    * norm_app H. injection H as <-. done.
    * norm_app H. injection H as -> <-.
      rewrite !no_colon_app in H2. simpl in H2.
      by rewrite andb_false_r in H2.
  + norm_app H. injection H as <- H.
    destruct (IH _ _ _ H1 H2 H) as [-> ->]. done.
Qed.

Lemma pretty_N_char_no_colon x : pretty_N_char x ≠ ":"%char.
Proof. unfold pretty_N_char. repeat case_match; done. Qed.

Lemma pretty_N_go_no_colon x : ∀ s,
  Site.no_colon s = true → Site.no_colon (pretty_N_go x s) = true.
Proof.
induction (N.lt_wf_0 x) as [x _ IH]. intros s Hs.
destruct (decide (x = 0)%N) as [->|Hx]; [by rewrite pretty_N_go_0|].
rewrite pretty_N_go_step by lia. apply IH.
- apply N.div_lt; lia.
- simpl. rewrite Hs, andb_true_r. apply negb_true_iff, bool_decide_eq_false.
  apply pretty_N_char_no_colon.
Qed.

Lemma pretty_nat_no_colon (n : nat) : Site.no_colon (pretty n) = true.
Proof.
unfold pretty, pretty_nat, pretty, pretty_N.
destruct (decide _); [done|]. by apply pretty_N_go_no_colon.
Qed.

Section SiteFacts.

Variable b : Site.Browser.

Lemma scroll_for_cards_results n : ∀ cards s,
  Site.results (Site.scroll_for_cards b n cards s).1 = Site.results s.
Proof.
induction n as [|n IH]; intros cards s; [done|]. simpl.
case_bool_decide; [done|]. by rewrite IH.
Qed.

(** The locator the scrolling leaves is the one it was given, or the wide
    selector, which then matches. *)
Lemma scroll_for_cards_found n : ∀ cards s,
  (Site.scroll_for_cards b n cards s).2 = cards ∨
  ((Site.scroll_for_cards b n cards s).2 = Some Site.any_card ∧
   Site.card_count b (Site.scroll_for_cards b n cards s).1 Site.any_card ≠ 0).
Proof.
induction n as [|n IH]; intros cards s; [by left|]. simpl.
case_bool_decide as Hc; [by right|]. apply IH.
Qed.

(** The wheel is turned at most [n] times, each turn followed by its
    pause, and nothing else is done. *)
Lemma scroll_for_cards_done n : ∀ cards s,
  ∃ k, k ≤ n ∧
    Site.done (Site.scroll_for_cards b n cards s).1
    = Site.done s ++ concat (replicate k [Site.MouseWheel 0 2000; Site.WaitTimeout 300]).
Proof.
induction n as [|n IH]; intros cards s.
- exists 0. split; [lia|]. simpl. by rewrite app_nil_r.
- simpl. case_bool_decide as Hc.
  + exists 1. split; [lia|]. simpl. by rewrite <- !app_assoc.
  + destruct (IH cards (Site.act b (Site.WaitTimeout 300)
                 (Site.act b (Site.MouseWheel 0 2000) s))) as (k & Hk & ->).
    exists (S k). split; [lia|]. simpl. by rewrite <- !app_assoc.
Qed.

Lemma find_cards_results s :
  Site.results (Site.find_cards b s).1 = Site.results s.
Proof.
unfold Site.find_cards. cbv zeta.
destruct (match first_matching _ _ with None => true | Some _ => _ end); [|done].
by rewrite scroll_for_cards_results.
Qed.

Lemma scrape_page_results s :
  Site.results (Site.scrape_page b s)
  = Site.results s ++
    match (Site.find_cards b s).2 with
    | None => []
    | Some sel =>
        map Site.record_of
          (Site.locate_cards (Site.page_of b (Site.now (Site.find_cards b s).1)) sel)
    end.
Proof.
unfold Site.scrape_page. pose proof (find_cards_results s) as Hr.
destruct (Site.find_cards b s) as [s1 [sel|]]; simpl in *.
- by rewrite Hr.
- by rewrite Hr, app_nil_r.
Qed.

Lemma scrape_page_grows s :
  length (Site.results s) ≤ length (Site.results (Site.scrape_page b s)).
Proof. rewrite scrape_page_results, length_app. lia. Qed.

(** The locator of [scrape_page] matches on the page the cards are read
    from, when there is one and a card selector or the wide selector has
    matched. *)
Lemma find_cards_match s sel :
  (Site.find_cards b s).2 = Some sel →
  0 < Site.card_count b (Site.find_cards b s).1 sel.
Proof.
unfold Site.find_cards. cbv zeta.
set (s1 := Site.act b Site.WaitLoadState s).
destruct (first_matching _ Site.card_selectors) as [sel1|] eqn:E.
- apply first_matching_some in E as [_ Hlen].
  case_bool_decide as Hc; [unfold Site.card_count in Hc; lia|].
  simpl. by intros [= <-].
- destruct (scroll_for_cards_found 10 None s1) as [->|[-> Hc]]; [done|].
  intros [= <-]. lia.
Qed.

Lemma act_results a s : Site.results (Site.act b a s) = Site.results s.
Proof. done. Qed.

Lemma advance_grows sel s :
  length (Site.results s) ≤ length (Site.results (Site.advance b sel s)).
Proof. unfold Site.advance. cbv zeta. by rewrite <- scrape_page_grows. Qed.

Lemma loop_key_known seen s :
  Site.keys_below b seen s → Site.loop_key b s ∈ seen →
  ∃ sel s1, s = Site.advance b sel s1 ∧
    length (Site.results s1) = length (Site.results s).
Proof.
intros Hinv Hin. destruct (Hinv _ Hin) as (u & n & Hk & Hn).
unfold Site.loop_key in Hk.
apply key_digits_inj in Hk as [_ Hk]; try apply pretty_nat_no_colon.
apply (inj pretty) in Hk. destruct Hn as [Hn|[_ Hn]]; [lia|done].
Qed.

Lemma keys_below_advance seen s sel :
  Site.keys_below b seen s →
  Site.keys_below b ({[Site.loop_key b s]} ∪ seen) (Site.advance b sel s).
Proof.
intros Hinv k Hk. pose proof (advance_grows sel s) as Hle.
assert (∀ n, n ≤ length (Site.results s) →
  n < length (Site.results (Site.advance b sel s)) ∨
  (n = length (Site.results (Site.advance b sel s)) ∧
   ∃ sel' s1, Site.advance b sel s = Site.advance b sel' s1 ∧
     length (Site.results s1) = length (Site.results (Site.advance b sel s)))) as Hcase.
{ intros n Hn.
  destruct (decide (n < length (Site.results (Site.advance b sel s)))) as [?|Hge];
    [by left|right].
  split; [lia|]. exists sel, s. split; [done|lia]. }
apply elem_of_union in Hk as [Hk|Hk].
- apply elem_of_singleton in Hk as ->. exists (Site.page_url (Site.page_of b (Site.now s))),
    (length (Site.results s)). split; [done|]. by apply Hcase.
- destruct (Hinv _ Hk) as (u & n & -> & Hn). exists u, n. split; [done|].
  apply Hcase. destruct Hn as [?|[-> _]]; lia.
Qed.

Lemma keys_below_empty s : Site.keys_below b ∅ s.
Proof. intros k Hk. by apply elem_of_empty in Hk. Qed.

Lemma next_loop_unfold fuel seen s :
  Site.next_loop b (S fuel) seen s
  = match Site.enabled_next (Site.page_of b (Site.now s)) Site.next_selectors with
    | None => Some s
    | Some sel =>
        if bool_decide (Site.loop_key b s ∈ seen) then Some s
        else Site.next_loop b fuel ({[Site.loop_key b s]} ∪ seen) (Site.advance b sel s)
    end.
Proof. done. Qed.

(** When the loop ends, no next-page control is enabled, or the last turn
    has added no record. *)
Lemma next_loop_end fuel : ∀ seen s s',
  Site.keys_below b seen s →
  Site.next_loop b fuel seen s = Some s' →
  Site.enabled_next (Site.page_of b (Site.now s')) Site.next_selectors = None ∨
  ∃ sel s1, s' = Site.advance b sel s1 ∧
    length (Site.results s1) = length (Site.results s').
Proof.
induction fuel as [|fuel IH]; intros seen s s' Hinv H; [done|].
rewrite next_loop_unfold in H.
destruct (Site.enabled_next (Site.page_of b (Site.now s)) Site.next_selectors)
  as [sel|] eqn:En.
- case_bool_decide as Hk.
  + injection H as <-. right. by apply (loop_key_known seen).
  + apply IH in H; [done|]. by apply keys_below_advance.
- injection H as <-. by left.
Qed.

End SiteFacts.

Section SiteRun.

Variable b : Site.Browser.




Lemma advance_results sel s :
  ∃ l, Site.results (Site.advance b sel s) = Site.results s ++ l.
Proof. unfold Site.advance. cbv zeta. rewrite scrape_page_results. eauto. Qed.

Section Endless.

Hypothesis Hcards : ∀ w,
  first_matching (Site.locate_cards (Site.page_of b w)) Site.card_selectors ≠ None.

Lemma scrape_page_adds s :
  length (Site.results s) < length (Site.results (Site.scrape_page b s)).
Proof.
rewrite scrape_page_results, length_app.
pose proof (find_cards_match b s) as Hm.
assert (∃ sel, (Site.find_cards b s).2 = Some sel) as [sel Hsel].
{ unfold Site.find_cards. cbv zeta.
  destruct (first_matching _ Site.card_selectors) as [sel|] eqn:E; [|by apply Hcards in E].
  apply first_matching_some in E as [_ Hlen].
  case_bool_decide as Hc; [unfold Site.card_count in Hc; lia|]. by exists sel. }
specialize (Hm _ Hsel). rewrite Hsel, length_map.
unfold Site.card_count in Hm. lia.
Qed.

Lemma advance_adds sel s :
  length (Site.results s) < length (Site.results (Site.advance b sel s)).
Proof.
unfold Site.advance. cbv zeta.
exact (scrape_page_adds (Site.act b (Site.WaitTimeout 1000)
         (Site.act b Site.WaitLoadState (Site.act b (Site.Click sel) s)))).
Qed.

End Endless.

End SiteRun.


(** X21: the loop of [run] over the next-page controls ends in one of two
    ways only: no selector finds an enabled control, or the turn just made
    has added no record.  The guard on [page.url] and [len(results)]
    never ends the loop after a turn that has added a record. *)
Theorem card_loop_ends_without_progress (b : Site.Browser) (fuel : nat)
    (w0 : Site.world b) (s' : Site.State b) :
  Site.next_loop b fuel ∅ (Site.first_page b w0) = Some s' →
  Site.enabled_next (Site.page_of b (Site.now s')) Site.next_selectors = None ∨
  ∃ sel s1, s' = Site.advance b sel s1 ∧ Site.results s' = Site.results s1.
Proof.
intros H. apply next_loop_end in H; [|apply keys_below_empty].
destruct H as [?|(sel & s1 & -> & Hlen)]; [by left|right].
exists sel, s1. split; [done|].
destruct (advance_results b sel s1) as [l Hl]. rewrite Hl in Hlen |- *.
rewrite length_app in Hlen. destruct l; [by rewrite app_nil_r|simpl in Hlen; lia].
Qed.

Lemma card_loop_ends_without_progress_witness :
  let next := "button:has-text('Next')" in
  let s' := Site.advance Ex6.paged next (Site.advance Ex6.paged next
              (Site.advance Ex6.paged next (Site.first_page Ex6.paged (1, false)))) in
  Site.enabled_next (Site.page_of Ex6.paged (Site.now s')) Site.next_selectors = None ∨
  ∃ sel s1, s' = Site.advance Ex6.paged sel s1 ∧ Site.results s' = Site.results s1.
Proof.
cbv zeta.
apply (card_loop_ends_without_progress Ex6.paged 10 (1, false)).
vm_compute. reflexivity.
Defined.

(** X22: on a site where every page shows a card to one of the four card
    selectors and an enabled next-page control to one of the four
    selectors of the loop, [run] never returns: however many turns the
    loop is given, it has not ended.  The guard meant to avoid infinite
    loops does not stop it, since the number of records in its key grows
    with every turn. *)
Theorem card_run_never_returns (b : Site.Browser)
    (Hnext : ∀ w, Site.enabled_next (Site.page_of b w) Site.next_selectors ≠ None)
    (Hcards : ∀ w,
       first_matching (Site.locate_cards (Site.page_of b w)) Site.card_selectors ≠ None)
    (fuel : nat) (w0 : Site.world b) (fs : Files) :
  Site.run b fuel w0 fs = None.
Proof.
unfold Site.run.
destruct (Site.next_loop b fuel ∅ (Site.first_page b w0)) as [s'|] eqn:E; [|done].
apply next_loop_end in E; [|apply keys_below_empty].
destruct E as [E|(sel & s1 & -> & Hlen)].
- by destruct (Hnext (Site.now s')).
- pose proof (advance_adds b Hcards sel s1). lia.
Qed.

Lemma card_run_never_returns_witness :
  Site.run Ex6.endless 1000 () no_files = None.
Proof.
apply (card_run_never_returns Ex6.endless).
- intros []. by vm_compute.
- intros []. by vm_compute.
Defined.

(** X23: a turn of the loop that changes neither the address of the page
    nor the number of records is the last one: the loop ends right after
    it, whatever the page then shows. *)
Theorem card_loop_stale_turn_is_last (b : Site.Browser) (fuel : nat)
    (seen : gset string) (s : Site.State b) (sel : string) :
  Site.enabled_next (Site.page_of b (Site.now s)) Site.next_selectors = Some sel →
  Site.loop_key b s ∉ seen →
  Site.page_url (Site.page_of b (Site.now (Site.advance b sel s)))
    = Site.page_url (Site.page_of b (Site.now s)) →
  length (Site.results (Site.advance b sel s)) = length (Site.results s) →
  Site.next_loop b (S (S fuel)) seen s = Some (Site.advance b sel s).
Proof.
intros Hsel Hfresh Hurl Hlen.
rewrite next_loop_unfold, Hsel, bool_decide_eq_false_2 by done.
rewrite next_loop_unfold. clear Hsel.
destruct (Site.enabled_next _ _); [|done].
rewrite bool_decide_eq_true_2; [done|].
apply elem_of_union_l, elem_of_singleton.
unfold Site.loop_key. by rewrite Hurl, Hlen.
Qed.

Lemma card_loop_stale_turn_is_last_witness :
  let s := Site.Build_State Ex6.paged (3, false) [] [] in
  Site.next_loop Ex6.paged 2 ∅ s = Some (Site.advance Ex6.paged "button:has-text('Next')" s).
Proof.
cbv zeta.
apply (card_loop_stale_turn_is_last Ex6.paged 0 ∅
         (Site.Build_State Ex6.paged (3, false) [] [])).
- by vm_compute.
- apply not_elem_of_empty.
- by vm_compute.
- by vm_compute.
Defined.

(** * The outputs of the card scraper *)






Section SiteOutputs.

Variable b : Site.Browser.





End SiteOutputs.



